(** * PriceCatcher loaders: a shallow embedding and its verified properties

    The repository holds three scripts that keep a DuckDB file in sync with
    the monthly PriceCatcher parquet snapshots:

    - [bulk_load_price.py]   (backfill, one step per calendar month),
    - [inc_load_price.py]    (incremental, one step per calendar day),
    - [load_transactions.py] (one-off load of a single snapshot).

    The embedding follows the scripts statement by statement.  SQL tables are
    lists of rows, a primary key is a check made by [INSERT], Python
    exceptions are the [Raise] outcome of a state-and-exception monad, and
    the two [while] loops take a fuel argument (with theorems that enough
    fuel always exists).

    External collaborators are modelled at their interface:
    - the HTTP server is an oracle [http_get] indexed by a call counter, so
      that the same URL may answer differently later in the run;
    - [read_parquet] either yields rows of the price shape or fails;
    - the DuckDB client is modelled as it behaves: [conn.execute] hands
      back the connection itself, so that [result.rowcount], read by the
      bulk loader after two later statements, is [-1]; the connection has
      no attribute [row_count], which the incremental loader asks for; and
      the upsert into the ledger does not bind, [CURRENT_TIMESTAMP] in its
      [DO UPDATE SET] list being looked up as a column;
    - Google Drive stores and returns the database file faithfully. *)

From Stdlib Require Import ZArith Lia.
From stdpp Require Import base decidable option list sorting strings.

Local Open Scope Z_scope.

(* ===================================================================== *)
(** ** Calendar dates ([datetime.date])                                   *)
(* ===================================================================== *)

Record date := Date { year : Z; month : Z; day : Z }.

#[global] Instance date_eq_dec : EqDecision date.
Proof. solve_decision. Defined.

Definition MINYEAR : Z := 1.
Definition MAXYEAR : Z := 9999.

Definition is_leap (y : Z) : bool :=
  (y mod 4 =? 0) && (negb (y mod 100 =? 0) || (y mod 400 =? 0)).

Definition days_in_month (y m : Z) : Z :=
  if m =? 2 then (if is_leap y then 29 else 28)
  else if (m =? 4) || (m =? 6) || (m =? 9) || (m =? 11) then 30
  else 31.

(** The values a Python [date] object can hold. *)
Definition valid_date (d : date) : bool :=
  (MINYEAR <=? year d) && (year d <=? MAXYEAR)
  && (1 <=? month d) && (month d <=? 12)
  && (1 <=? day d) && (day d <=? days_in_month (year d) (month d)).

(** [a <= b] and [a < b] on dates: comparison of (year, month, day). *)
Definition date_le (a b : date) : bool :=
  (year a <? year b)
  || ((year a =? year b)
      && ((month a <? month b)
          || ((month a =? month b) && (day a <=? day b)))).

Definition date_lt (a b : date) : bool :=
  (year a <? year b)
  || ((year a =? year b)
      && ((month a <? month b)
          || ((month a =? month b) && (day a <? day b)))).

(** [date.toordinal()]: days since 0001-01-01, that day being 1. *)
Definition days_before_year (y : Z) : Z :=
  let p := y - 1 in 365 * p + p / 4 - p / 100 + p / 400.

Definition days_before_month (y m : Z) : Z :=
  (if 1 <? m then 31 else 0)
  + (if 2 <? m then (if is_leap y then 29 else 28) else 0)
  + (if 3 <? m then 31 else 0)
  + (if 4 <? m then 30 else 0)
  + (if 5 <? m then 31 else 0)
  + (if 6 <? m then 30 else 0)
  + (if 7 <? m then 31 else 0)
  + (if 8 <? m then 31 else 0)
  + (if 9 <? m then 30 else 0)
  + (if 10 <? m then 31 else 0)
  + (if 11 <? m then 30 else 0).

Definition toordinal (d : date) : Z :=
  days_before_year (year d) + days_before_month (year d) (month d) + day d.

(** [d.replace(day=1)]. *)
Definition replace_day_1 (d : date) : date :=
  {| year := year d; month := month d; day := 1 |}.

(** Decimal fields as [strftime] prints them: [%m] on two digits, [%Y]
    without padding (a year below 1000 comes out on fewer than four). *)
Definition digit (n : Z) : Ascii.ascii := Ascii.ascii_of_N (Z.to_N (48 + n mod 10)).

Definition pad2 (n : Z) : string :=
  String (digit (n / 10)) (String (digit n) EmptyString).

Definition pad4 (n : Z) : string :=
  String (digit (n / 1000)) (String (digit (n / 100)) (pad2 n)).

Definition strftime_Y (y : Z) : string :=
  if y <? 10 then String (digit y) EmptyString
  else if y <? 100 then pad2 y
  else if y <? 1000 then String (digit (y / 100)) (pad2 y)
  else pad4 y.

(** [d.strftime('%Y-%m')]. *)
Definition strftime_Y_m (d : date) : string :=
  strftime_Y (year d) +:+ "-" +:+ pad2 (month d).

(* ===================================================================== *)
(** ** Exceptions and outcomes                                            *)
(* ===================================================================== *)

Inductive exn :=
| HTTPError (status_code : Z)      (* requests.exceptions.HTTPError *)
| ConnectionError                  (* requests: no response at all *)
| InvalidInputException            (* duckdb: read_parquet on a bad file *)
| ConstraintException              (* duckdb: primary key violated *)
| CatalogException                 (* duckdb: table missing / already there *)
| BinderException                  (* duckdb: a name that does not bind *)
| AttributeError                   (* an attribute the object has not *)
| OverflowError                    (* date + timedelta out of range *)
| ValueError.                      (* date.replace out of range *)

#[global] Instance exn_eq_dec : EqDecision exn.
Proof. solve_decision. Defined.

Inductive outcome (A : Type) :=
| Return (a : A)
| Raise (e : exn).
Arguments Return {A} a.
Arguments Raise {A} e.

(** [date + timedelta(days=1)]. *)
Definition add_one_day (d : date) : outcome date :=
  if day d <? days_in_month (year d) (month d) then
    Return {| year := year d; month := month d; day := day d + 1 |}
  else if month d <? 12 then
    Return {| year := year d; month := month d + 1; day := 1 |}
  else if year d <? MAXYEAR then
    Return {| year := year d + 1; month := 1; day := 1 |}
  else Raise OverflowError.

(** [date + relativedelta(months=1)]: the month moves on by one, the day is
    clipped to the length of the new month, and [date.replace] refuses a
    year past [MAXYEAR]. *)
Definition add_one_month (d : date) : outcome date :=
  let y := if month d <? 12 then year d else year d + 1 in
  let m := if month d <? 12 then month d + 1 else 1 in
  if y <=? MAXYEAR then
    Return {| year := y; month := m; day := Z.min (days_in_month y m) (day d) |}
  else Raise ValueError.

(* ===================================================================== *)
(** ** Tables                                                             *)
(* ===================================================================== *)

(** A row of [price] (and of a decoded snapshot).  [price] is
    [DECIMAL(10,2)], held in hundredths. *)
Record Row := mkRow {
  row_date : date;
  premise_code : string;
  item_code : string;
  price : Z
}.

#[global] Instance Row_eq_dec : EqDecision Row.
Proof. solve_decision. Defined.

(** The identity triple [(date, premise_code, item_code)]. *)
Definition identity (r : Row) : date * string * string :=
  (row_date r, premise_code r, item_code r).

(** The [price] table: its rows, and whether it was created with
    [PRIMARY KEY (date, premise_code, item_code)]. *)
Record price_table := mkPrice {
  primary_key : bool;
  rows : list Row
}.

(** A row of [data_processing_log]. *)
Record ProgressEntry := mkEntry {
  processed_date : date;
  processed_at : Z;
  file_url : string;
  records_loaded : Z
}.

#[global] Instance ProgressEntry_eq_dec : EqDecision ProgressEntry.
Proof. solve_decision. Defined.

(** [data_processing_log] as the connection finds it: not there, there but
    failing the queries of the scripts (a table of that name with other
    columns), or the table the scripts create. *)
Inductive log_table :=
| LogAbsent
| LogUnreadable
| LogTable (entries : list ProgressEntry).

(** The database file: what is uploaded to and downloaded from Drive. *)
Record database := mkDb {
  db_price : option price_table;
  db_log : log_table
}.

(* --------------------------------------------------------------------- *)
(** *** The dedup insert                                                  *)
(* --------------------------------------------------------------------- *)

(** [EXISTS (SELECT 1 FROM price x WHERE x.date = t.date AND
    x.premise_code = t.premise_code AND x.item_code = t.item_code)]. *)
Definition exists_in_price (p : list Row) (t : Row) : Prop :=
  identity t ∈ identity <$> p.

#[global] Instance exists_in_price_dec p t : Decision (exists_in_price p t).
Proof. unfold exists_in_price. apply _. Defined.

(** [DATE(t.date) = ?], when the statement has that condition; the
    parameter is the day being processed, passed as ['%Y-%m-%d'] text. *)
Definition on_target (target : option date) (t : Row) : Prop :=
  match target with
  | Some d => row_date t = d
  | None => True
  end.

#[global] Instance on_target_dec target t : Decision (on_target target t).
Proof. destruct target; simpl; apply _. Defined.

(** The CTE [new_records]: [SELECT DISTINCT t.* FROM temp_price t WHERE
    (DATE(t.date) = ? AND) NOT EXISTS (...)].  [DISTINCT] compares whole
    rows.  [target] is the date parameter of the incremental loader, absent
    in the bulk loader. *)
Definition new_records (target : option date) (temp p : list Row) : list Row :=
  remove_dups
    (filter (λ t, on_target target t ∧ ¬ exists_in_price p t) temp).

(** What a primary key on the identity triple checks on [INSERT]: the
    inserted rows collide neither with a stored row nor with each other. *)
Definition key_check (stored new : list Row) : Prop :=
  NoDup (identity <$> new) ∧ Forall (λ r, ¬ exists_in_price stored r) new.

(** [INSERT INTO price SELECT ...]: appends, or fails as a whole. *)
#[global] Instance key_check_dec stored new : Decision (key_check stored new).
Proof. unfold key_check. apply _. Defined.

Definition insert_into_price (new : list Row) (t : price_table)
  : outcome price_table :=
  if primary_key t then
    if decide (key_check (rows t) new)
    then Return {| primary_key := true; rows := rows t ++ new |}
    else Raise ConstraintException
  else Return {| primary_key := false; rows := rows t ++ new |}.

(* --------------------------------------------------------------------- *)
(** *** Queries on the ledger and on a month's file                       *)
(* --------------------------------------------------------------------- *)

(** [SELECT MAX(processed_date) FROM data_processing_log]: [None] is SQL
    NULL, the answer on an empty table. *)
Definition date_max (a b : date) : date := if date_le a b then b else a.

Definition max_processed_date (log : list ProgressEntry) : option date :=
  foldr (λ e acc, Some (from_option (date_max (processed_date e))
                                    (processed_date e) acc))
        None log.

(** [SELECT DISTINCT date AS processed_date FROM temp_price ORDER BY
    processed_date]. *)
Definition date_le_rel (a b : date) : Prop := date_le a b = true.

#[global] Instance date_le_rel_dec : RelDecision date_le_rel.
Proof. intros a b. unfold date_le_rel. apply _. Defined.

Definition distinct_dates (temp : list Row) : list date :=
  merge_sort date_le_rel (remove_dups (row_date <$> temp)).

(* ===================================================================== *)
(** ** The world of a run                                                 *)
(* ===================================================================== *)

(** What [read_parquet] makes of a downloaded file. *)
Inductive file_content :=
| Parquet (decoded : list Row)
| NotParquet.

(** What [requests.get] comes back with. *)
Inductive response :=
| Response (status_code : Z) (content : file_content)
| NoResponse.

(** The surroundings of one run.  [http_get n url] answers the request made
    at clock [n]; [current_timestamp n] is [CURRENT_TIMESTAMP] at clock [n]
    (no statement of the scripts gets as far as evaluating it);
    [today] is [date.today()] / [datetime.now().date()]. *)
Record Env := mkEnv {
  http_get : nat → string → response;
  current_timestamp : nat → Z;
  today : date
}.

(** Lines written by [print]. *)
Inductive event :=
| Say (msg : string)
| ProcessingMonth (year_month url : string)
| ProcessingDay (d : date) (url : string)
| FileNotFound (url : string)
| ErrorGettingLastDate (e : exn)
| TotalRecords (n : Z)
| AnErrorOccurred (e : exn).

(** The open connection (the local copy of the database and the temporary
    table of the session), the clock, and what was printed. *)
Record world := mkWorld {
  conn : database;
  temp_price : option (list Row);
  clock : nat;
  stdout : list event
}.

Definition set_conn (f : database → database) (w : world) : world :=
  {| conn := f (conn w); temp_price := temp_price w;
     clock := clock w; stdout := stdout w |}.

Definition set_temp (t : option (list Row)) (w : world) : world :=
  {| conn := conn w; temp_price := t; clock := clock w; stdout := stdout w |}.

Definition set_price (p : option price_table) (d : database) : database :=
  {| db_price := p; db_log := db_log d |}.

Definition set_log (l : log_table) (d : database) : database :=
  {| db_price := db_price d; db_log := l |}.

(** State and exceptions: a failing statement leaves the world as it was,
    and what was done before it stays done. *)
Definition M (A : Type) : Type := world → outcome A * world.

Definition ret {A} (a : A) : M A := λ w, (Return a, w).

Definition raise {A} (e : exn) : M A := λ w, (Raise e, w).

Definition bind {A B} (m : M A) (k : A → M B) : M B :=
  λ w, match m w with
       | (Return a, w') => k a w'
       | (Raise e, w') => (Raise e, w')
       end.

(** [try: m  except ... as e: h e]. *)
Definition try_except {A} (m : M A) (h : exn → M A) : M A :=
  λ w, match m w with
       | (Return a, w') => (Return a, w')
       | (Raise e, w') => h e w'
       end.

Notation "x <- m ;; k" := (bind m (λ x, k))
  (at level 100, m at next level, right associativity).
Notation "m ;;; k" := (bind m (λ _, k))
  (at level 100, right associativity).

Definition print (ev : event) : M unit :=
  λ w, (Return tt, {| conn := conn w; temp_price := temp_price w;
                      clock := clock w; stdout := stdout w ++ [ev] |}).

(** Reads the clock and lets it advance. *)
Definition tick : M nat :=
  λ w, (Return (clock w), {| conn := conn w; temp_price := temp_price w;
                             clock := S (clock w); stdout := stdout w |}).

(** [for x in xs: body x]. *)
Fixpoint for_each {A} (xs : list A) (body : A → M unit) : M unit :=
  match xs with
  | [] => ret tt
  | x :: xs' => body x ;;; for_each xs' body
  end.

(* --------------------------------------------------------------------- *)
(** *** HTTP                                                              *)
(* --------------------------------------------------------------------- *)

Section http.
Context (E : Env).

(** [requests.get(url)]. *)
Definition requests_get (url : string) : M response :=
  n <- tick ;;
  match http_get E n url with
  | NoResponse => raise ConnectionError
  | r => ret r
  end.

(** [response.raise_for_status()]. *)
Definition raise_for_status (r : response) : M unit :=
  match r with
  | Response s _ => if (400 <=? s) && (s <? 600) then raise (HTTPError s) else ret tt
  | NoResponse => raise ConnectionError
  end.

Definition response_content (r : response) : file_content :=
  match r with
  | Response _ c => c
  | NoResponse => NotParquet
  end.
End http.

(* --------------------------------------------------------------------- *)
(** *** SQL statements of the scripts                                     *)
(* --------------------------------------------------------------------- *)

(** [CREATE TABLE IF NOT EXISTS price (...)], with or without the
    [PRIMARY KEY] clause: an existing table is left as it is. *)
Definition create_price_if_not_exists (with_primary_key : bool) : M unit :=
  λ w, match db_price (conn w) with
       | Some _ => (Return tt, w)
       | None =>
           (Return tt,
            set_conn (set_price (Some {| primary_key := with_primary_key;
                                         rows := [] |})) w)
       end.

(** [CREATE TABLE IF NOT EXISTS data_processing_log (...)]. *)
Definition create_log_if_not_exists : M unit :=
  λ w, match db_log (conn w) with
       | LogAbsent => (Return tt, set_conn (set_log (LogTable [])) w)
       | _ => (Return tt, w)
       end.

(** [CREATE TEMPORARY TABLE temp_price AS SELECT * FROM read_parquet(?)]. *)
Definition create_temp_price (f : file_content) : M unit :=
  λ w, match f, temp_price w with
       | NotParquet, _ => (Raise InvalidInputException, w)
       | Parquet _, Some _ => (Raise CatalogException, w)
       | Parquet decoded, None => (Return tt, set_temp (Some decoded) w)
       end.

(** [DROP TABLE temp_price]. *)
Definition drop_temp_price : M unit :=
  λ w, match temp_price w with
       | Some _ => (Return tt, set_temp None w)
       | None => (Raise CatalogException, w)
       end.

(** [WITH new_records AS (...) INSERT INTO price SELECT * FROM new_records];
    the value is the number of rows the statement inserted (what the
    loaders make of it is [result_rowcount] and [row_count] below). *)
Definition insert_new_records (target : option date) : M Z :=
  λ w, match temp_price w, db_price (conn w) with
       | Some temp, Some p =>
           let new := new_records target temp (rows p) in
           match insert_into_price new p with
           | Return p' =>
               (Return (Z.of_nat (length new)), set_conn (set_price (Some p')) w)
           | Raise e => (Raise e, w)
           end
       | _, _ => (Raise CatalogException, w)
       end.

(** [SELECT DISTINCT date ... FROM temp_price ORDER BY ...], fetched. *)
Definition select_distinct_dates : M (list date) :=
  λ w, match temp_price w with
       | Some temp => (Return (distinct_dates temp), w)
       | None => (Raise CatalogException, w)
       end.

(** [SELECT MAX(processed_date) FROM data_processing_log], fetched. *)
Definition select_max_processed_date : M (option date) :=
  λ w, match db_log (conn w) with
       | LogTable entries => (Return (max_processed_date entries), w)
       | LogAbsent => (Raise CatalogException, w)
       | LogUnreadable => (Raise BinderException, w)
       end.

(** [result.rowcount] in the bulk loader.  [conn.execute] returns the
    connection, so [result] is the connection, and the attribute is read
    once [SELECT DISTINCT] and [DROP TABLE] have run on it: it is [-1]. *)
Definition result_rowcount : M Z := ret (-1).

(** [conn.execute(...).row_count] in the incremental loader: the
    connection has no such attribute. *)
Definition row_count : M Z := raise AttributeError.

(** The upsert into [data_processing_log], with its parameters
    [processed_date, url, records_loaded]:
    [INSERT INTO data_processing_log (...) VALUES (?, CURRENT_TIMESTAMP, ?, ?)
    ON CONFLICT (processed_date) DO UPDATE SET processed_at =
    CURRENT_TIMESTAMP, records_loaded = excluded.records_loaded].
    The statement is refused when it is bound, before any row is looked at:
    in the [SET] list [CURRENT_TIMESTAMP] is looked up as a column of the
    table, which has none of that name.  So it raises whether or not the
    date is in the ledger, and the ledger stays as it is. *)
Definition recordProgress (d : date) (url : string) (n : Z) : M unit :=
  λ w, match db_log (conn w) with
       | LogTable _ => (Raise BinderException, w)
       | LogAbsent => (Raise CatalogException, w)
       | LogUnreadable => (Raise BinderException, w)
       end.

(** [INSERT INTO price SELECT * FROM read_parquet(?)]. *)
Definition insert_all_from_parquet (f : file_content) : M unit :=
  λ w, match f, db_price (conn w) with
       | NotParquet, _ => (Raise InvalidInputException, w)
       | Parquet _, None => (Raise CatalogException, w)
       | Parquet decoded, Some p =>
           match insert_into_price decoded p with
           | Return p' => (Return tt, set_conn (set_price (Some p')) w)
           | Raise e => (Raise e, w)
           end
       end.

Definition pricecatcher_url (d : date) : string :=
  "https://storage.data.gov.my/pricecatcher/pricecatcher_"
  +:+ strftime_Y_m d +:+ ".parquet".

(** A run against Drive: the database file is downloaded, [body] works on
    the local copy, and only a run that raised nothing uploads it.  [None]
    is a [while] loop out of fuel. *)
Definition with_drive (body : world → option (outcome unit * world))
    (drive : database) : option (outcome unit * database * list event) :=
  match body {| conn := drive; temp_price := None; clock := 0; stdout := [] |} with
  | None => None
  | Some (Return _, w) => Some (Return tt, conn w, stdout w)
  | Some (Raise e, w) => Some (Raise e, drive, stdout w ++ [AnErrorOccurred e])
  end.

(* ===================================================================== *)
(** ** bulk_load_price.py                                                 *)
(* ===================================================================== *)

Module bulk_load_price.

Record monthly_result := mkResult {
  result_records_loaded : Z;
  result_dates : list date
}.

Record month_data := mkMonth {
  url : string;
  year_month : string
}.

Definition START_DATE : date := {| year := 2022; month := 1; day := 1 |}.

Fixpoint generate_month_urls_loop (fuel : nat) (current_date end_date : date)
    (urls : list month_data) : option (outcome (list month_data)) :=
  match fuel with
  | O => None
  | S fuel' =>
      if date_le current_date end_date then
        let urls' := urls ++ [ {| url := pricecatcher_url current_date;
                                  year_month := strftime_Y_m current_date |} ] in
        match add_one_month current_date with
        | Return next => generate_month_urls_loop fuel' next end_date urls'
        | Raise e => Some (Raise e)
        end
      else Some (Return urls)
  end.

Definition generate_month_urls (fuel : nat) (start_date end_date : date)
  : option (outcome (list month_data)) :=
  generate_month_urls_loop fuel (replace_day_1 start_date) end_date [].

Section with_env.
Context (E : Env).

Definition download_parquet (url : string) : M (option file_content) :=
  try_except
    (response <- requests_get E url ;;
     raise_for_status response ;;;
     ret (Some (response_content response)))
    (λ e, match e with
          | HTTPError s =>
              if s =? 404 then print (FileNotFound url) ;;; ret None
              else raise e
          | _ => raise e
          end).

Definition process_monthly_file (year_month url : string)
  : M (option monthly_result) :=
  print (ProcessingMonth year_month url) ;;;
  local_path <- download_parquet url ;;
  match local_path with
  | None => ret None
  | Some file =>
      create_temp_price file ;;;
      insert_new_records None ;;;
      dates <- select_distinct_dates ;;
      drop_temp_price ;;;
      rowcount <- result_rowcount ;;
      ret (Some {| result_records_loaded := rowcount;
                   result_dates := dates |})
  end.

(** The body of [for month_data in monthly_urls], giving the new value
    of [total_records]. *)
Definition month_step (month_data : month_data) (total_records : Z) : M Z :=
  result <- process_monthly_file (year_month month_data) (url month_data) ;;
  match result with
  | Some r =>
      match result_dates r with
      | [] => ret total_records
      | _ :: _ =>
          for_each (result_dates r)
            (λ processed_date,
               recordProgress processed_date (url month_data)
                 (result_records_loaded r)) ;;;
          ret (total_records + result_records_loaded r)
      end
  | None => ret total_records
  end.

Fixpoint month_loop (monthly_urls : list month_data) (total_records : Z)
  : M Z :=
  match monthly_urls with
  | [] => ret total_records
  | month_data :: rest =>
      total_records' <- month_step month_data total_records ;;
      month_loop rest total_records'
  end.

(** The [try] block of [main], from the connection on. *)
Definition main_try (fuel : nat) : world → option (outcome unit * world) :=
  λ w,
    match (print (Say "Setting up Drive service...") ;;;
           print (Say "Downloading existing DuckDB file...") ;;;
           create_price_if_not_exists true ;;;
           create_log_if_not_exists) w with
    | (Raise e, w1) => Some (Raise e, w1)
    | (Return _, w1) =>
        match generate_month_urls fuel START_DATE (today E) with
        | None => None
        | Some (Raise e) => Some (Raise e, w1)
        | Some (Return monthly_urls) =>
            Some ((total_records <- month_loop monthly_urls 0 ;;
                   print (TotalRecords total_records) ;;;
                   print (Say "Uploading updated DuckDB file...") ;;;
                   print (Say "Cleaning up...") ;;;
                   print (Say "Bulk load completed successfully!")) w1)
        end
    end.

Definition main (fuel : nat) (drive : database)
  : option (outcome unit * database * list event) :=
  with_drive (main_try fuel) drive.
End with_env.

End bulk_load_price.

(* ===================================================================== *)
(** ** inc_load_price.py                                                  *)
(* ===================================================================== *)

Module inc_load_price.

(** [get_last_processed_date] hands back a [date] (from the table) or a
    [datetime] (its default, midnight of that day). *)
Inductive date_or_datetime :=
| a_date (d : date)
| a_datetime (d : date).

Definition epoch_default : date := {| year := 2022; month := 1; day := 1 |}.

(** [if isinstance(last_date, datetime): last_date = last_date.date()]. *)
Definition to_date (x : date_or_datetime) : date :=
  match x with
  | a_date d => d
  | a_datetime d => d
  end.

Definition get_last_processed_date : M date_or_datetime :=
  try_except
    (result <- select_max_processed_date ;;
     ret (match result with
          | Some d => a_date d
          | None => a_datetime epoch_default
          end))
    (λ e,
       print (ErrorGettingLastDate e) ;;;
       create_log_if_not_exists ;;;
       ret (a_datetime epoch_default)).

Section with_env.
Context (E : Env).

Definition download_parquet (url : string) : M (option file_content) :=
  try_except
    (response <- requests_get E url ;;
     raise_for_status response ;;;
     ret (Some (response_content response)))
    (λ e, match e with
          | HTTPError s =>
              if s =? 404 then print (FileNotFound url) ;;; ret None
              else raise e
          | _ => raise e
          end).

Definition process_monthly_file (date : date) (url : string) : M Z :=
  print (ProcessingDay date url) ;;;
  local_path <- download_parquet url ;;
  match local_path with
  | None => ret 0
  | Some file =>
      create_temp_price file ;;;
      insert_new_records (Some date) ;;;
      records_loaded <- row_count ;;
      drop_temp_price ;;;
      ret records_loaded
  end.

(** The body of [while date <= current_date], up to the increment. *)
Definition day_step (date : date) : M unit :=
  let url := pricecatcher_url date in
  records_loaded <- process_monthly_file date url ;;
  if 0 <? records_loaded
  then recordProgress date url records_loaded
  else ret tt.

Fixpoint day_loop (fuel : nat) (date current_date : date)
  : world → option (outcome unit * world) :=
  match fuel with
  | O => λ _, None
  | S fuel' => λ w,
      if date_le date current_date then
        match day_step date w with
        | (Raise e, w') => Some (Raise e, w')
        | (Return _, w') =>
            match add_one_day date with
            | Raise e => Some (Raise e, w')
            | Return next => day_loop fuel' next current_date w'
            end
        end
      else Some (Return tt, w)
  end.

(** The [try] block of [main], from the connection on. *)
Definition main_try (fuel : nat) : world → option (outcome unit * world) :=
  λ w,
    match (print (Say "Setting up Drive service...") ;;;
           print (Say "Downloading existing DuckDB file...") ;;;
           create_price_if_not_exists true ;;;
           get_last_processed_date) w with
    | (Raise e, w1) => Some (Raise e, w1)
    | (Return last_date, w1) =>
        match day_loop fuel (to_date last_date) (today E) w1 with
        | None => None
        | Some (Raise e, w2) => Some (Raise e, w2)
        | Some (Return _, w2) =>
            Some ((print (Say "Uploading updated DuckDB file...") ;;;
                   print (Say "Cleaning up...") ;;;
                   print (Say "Transaction data loaded successfully!")) w2)
        end
    end.

Definition main (fuel : nat) (drive : database)
  : option (outcome unit * database * list event) :=
  with_drive (main_try fuel) drive.
End with_env.

End inc_load_price.

(* ===================================================================== *)
(** ** load_transactions.py                                               *)
(* ===================================================================== *)

Module load_transactions.

Definition TRANSACTION_URL : string :=
  "https://storage.data.gov.my/pricecatcher/pricecatcher_2022-02.parquet".

Section with_env.
Context (E : Env).

Definition download_parquet (url : string) : M file_content :=
  response <- requests_get E url ;;
  raise_for_status response ;;;
  ret (response_content response).

Definition main_try : world → option (outcome unit * world) :=
  λ w, Some
    ((print (Say "Setting up Drive service...") ;;;
      print (Say "Downloading existing DuckDB file...") ;;;
      print (Say "Downloading transaction data...") ;;;
      transaction_path <- download_parquet TRANSACTION_URL ;;
      print (Say "Loading transaction data into DuckDB...") ;;;
      create_price_if_not_exists false ;;;
      insert_all_from_parquet transaction_path ;;;
      print (Say "Uploading updated DuckDB file...") ;;;
      print (Say "Cleaning up...") ;;;
      print (Say "Transaction data loaded successfully!")) w).

Definition main (drive : database)
  : option (outcome unit * database * list event) :=
  with_drive main_try drive.
End with_env.

End load_transactions.

(* ===================================================================== *)
(** ** Vocabulary of the properties                                       *)
(* ===================================================================== *)

(** The days for which [process_monthly_file] of the incremental loader was
    entered, in the order of its [Processing data for ...] lines. *)
Definition days_processed (out : list event) : list date :=
  omap (λ ev, match ev with ProcessingDay d _ => Some d | _ => None end) out.

(** The rows of [price] on a connection (none while the table is absent). *)
Definition price_rows (db : database) : list Row :=
  match db_price db with
  | Some p => rows p
  | None => []
  end.

(** The entries of [data_processing_log] (none unless it is readable). *)
Definition log_entries (db : database) : list ProgressEntry :=
  match db_log db with
  | LogTable entries => entries
  | _ => []
  end.

(** Months counted from year 0: the calendar month of a date, and the first
    day of the month with a given index. *)
Definition month_index (d : date) : Z := year d * 12 + (month d - 1).

Definition month_start (i : Z) : date :=
  {| year := i / 12; month := i mod 12 + 1; day := 1 |}.

(** The entry [generate_month_urls] appends for a month. *)
Definition month_entry (first_day : date) : bulk_load_price.month_data :=
  {| bulk_load_price.url := pricecatcher_url first_day;
     bulk_load_price.year_month := strftime_Y_m first_day |}.

(** Distinct identity triples of a batch, and how many of them the stored
    rows already hold. *)
Definition distinct_identities (batch : list Row) : list (date * string * string) :=
  remove_dups (identity <$> batch).

Definition already_present (batch stored : list Row) : list (date * string * string) :=
  filter (λ k, k ∈ identity <$> stored) (distinct_identities batch).

(** The world once the clock has advanced, and once lines were printed. *)
Definition advance (w : world) : world :=
  {| conn := conn w; temp_price := temp_price w;
     clock := S (clock w); stdout := stdout w |}.

Definition with_output (evs : list event) (w : world) : world :=
  {| conn := conn w; temp_price := temp_price w;
     clock := clock w; stdout := stdout w ++ evs |}.

(** An HTTP status that [raise_for_status] lets pass. *)
Definition status_ok (s : Z) : Prop := s < 400 ∨ 600 ≤ s.

(** Sample data: the rows of the scenario of the specification, and a row
    that shares an identity triple with the first at another price. *)
Definition row_P1 : Row := mkRow (Date 2022 1 1) "P1" "I1" 120.
Definition row_P2 : Row := mkRow (Date 2022 1 1) "P2" "I1" 150.
Definition row_P1_130 : Row := mkRow (Date 2022 1 1) "P1" "I1" 130.

(** A world at the start of a run, on a given database file. *)
Definition fresh_world (db : database) : world :=
  {| conn := db; temp_price := None; clock := 0; stdout := [] |}.

(** A server that publishes the given files and answers 404 otherwise. *)
Definition serving (files : list (string * list Row)) (today : date) : Env :=
  {| http_get := λ _ url,
       match list_find (λ f, f.1 = url) files with
       | Some (_, f) => Response 200 (Parquet f.2)
       | None => Response 404 NotParquet
       end;
     current_timestamp := λ n, Z.of_nat n;
     today := today |}.

Definition row_Feb : Row := mkRow (Date 2022 2 1) "P1" "I1" 120.

(** The value [get_last_processed_date] returns on a ledger. *)
Definition last_processed (l : log_table) : inc_load_price.date_or_datetime :=
  match l with
  | LogTable entries =>
      match max_processed_date entries with
      | Some d => inc_load_price.a_date d
      | None => inc_load_price.a_datetime inc_load_price.epoch_default
      end
  | _ => inc_load_price.a_datetime inc_load_price.epoch_default
  end.

(** A run of the day loop that was not cut short by a failing step: it
    returned, or it stopped on the one date that has no next day. *)
Definition ran_to_end (o : outcome unit) : Prop :=
  match o with
  | Return _ => True
  | Raise e => e = OverflowError
  end.

(** What the day loop, entered at day [D] with current date [T], has done
    between the worlds [w] and [w']: it processed [days], appended [added]
    to [price] and left the ledger alone. *)
Definition resumed (D T : date) (w : world) (o : outcome unit) (w' : world)
    (days : list date) (added : list Row) : Prop :=
  days_processed (stdout w') = days_processed (stdout w) ++ days
  ∧ price_rows (conn w') = price_rows (conn w) ++ added
  ∧ StronglySorted (λ a b, date_lt a b = true) days
  ∧ (∀ x, x ∈ days →
          valid_date x = true ∧ date_le D x = true ∧ date_le x T = true)
  ∧ (∀ x y, valid_date x = true → y ∈ days →
            date_le D x = true → date_le x y = true → x ∈ days)
  ∧ (ran_to_end o →
     ∀ x, valid_date x = true → date_le D x = true → date_le x T = true →
          x ∈ days)
  ∧ (∀ r, r ∈ added →
          row_date r ∈ days ∧ ¬ exists_in_price (price_rows (conn w)) r)
  ∧ db_log (conn w') = db_log (conn w).

(** A batch in which an identity triple comes with one price only. *)
Definition single_priced (batch : list Row) : Prop :=
  ∀ r r', r ∈ batch → r' ∈ batch → identity r = identity r' → r = r'.

(** The months for which [process_monthly_file] of the bulk loader was
    entered, in the order of its [Processing data for ...] lines. *)
Definition months_processed (out : list event) : list string :=
  omap (λ ev, match ev with ProcessingMonth ym _ => Some ym | _ => None end) out.

(** How the [price] table may differ between two points of a run: it is
    absent at both, or it kept its kind and its rows and got [added] at the
    end, rows whose identities it did not hold, checked by the primary key
    where there is one. *)
Definition price_step (before after : option price_table) (added : list Row)
  : Prop :=
  match before with
  | Some p =>
      after = Some {| primary_key := primary_key p; rows := rows p ++ added |}
      ∧ (primary_key p = true → key_check (rows p) added)
      ∧ Forall (λ r, ¬ exists_in_price (rows p) r) added
  | None => after = None ∧ added = []
  end.

(** The keys of a database file: a [price] table, when there is one, has
    its primary key and no identity twice; a readable ledger has no date
    twice. *)
Definition keys_hold (db : database) : Prop :=
  match db_price db with
  | Some p => primary_key p = true ∧ NoDup (identity <$> rows p)
  | None => True
  end
  ∧ match db_log db with
    | LogTable entries => NoDup (processed_date <$> entries)
    | _ => True
    end.

(** The database once [main] of the bulk loader has run its two
    [CREATE TABLE IF NOT EXISTS]: tables that were there are as they were,
    a missing [price] is there with its key, a missing ledger is there. *)
Definition prepared (db : database) : database :=
  {| db_price := Some (default {| primary_key := true; rows := [] |}
                               (db_price db));
     db_log := match db_log db with
               | LogAbsent => LogTable []
               | l => l
               end |}.

(** A measure that grows with every day (31 slots per month). *)
Definition day_rank (d : date) : Z := month_index d * 31 + (day d - 1).

(* ===================================================================== *)
(** ** Dates                                                              *)
(* ===================================================================== *)

Arguments days_in_month : simpl never.
Arguments is_leap : simpl never.

Lemma date_le_spec a b :
  date_le a b = true ↔
  year a < year b
  ∨ (year a = year b
     ∧ (month a < month b ∨ (month a = month b ∧ day a ≤ day b))).
Proof.
  unfold date_le.
  repeat first [rewrite orb_true_iff | rewrite andb_true_iff].
  rewrite !Z.ltb_lt, !Z.eqb_eq, Z.leb_le. reflexivity.
Qed.

Lemma date_lt_spec a b :
  date_lt a b = true ↔
  year a < year b
  ∨ (year a = year b
     ∧ (month a < month b ∨ (month a = month b ∧ day a < day b))).
Proof.
  unfold date_lt.
  repeat first [rewrite orb_true_iff | rewrite andb_true_iff].
  rewrite !Z.ltb_lt, !Z.eqb_eq. reflexivity.
Qed.

Lemma valid_date_spec d :
  valid_date d = true ↔
  1 ≤ year d ≤ 9999 ∧ 1 ≤ month d ≤ 12
  ∧ 1 ≤ day d ≤ days_in_month (year d) (month d).
Proof.
  unfold valid_date, MINYEAR, MAXYEAR.
  repeat rewrite andb_true_iff. rewrite !Z.leb_le. lia.
Qed.

Lemma date_eq_fields a b :
  a = b ↔ year a = year b ∧ month a = month b ∧ day a = day b.
Proof.
  split; [by intros ->|]. destruct a, b; simpl. intros (-> & -> & ->). done.
Qed.

(** Turns comparisons of dates into linear arithmetic on their fields. *)
Ltac date_solve :=
  unfold date_le_rel in *;
  repeat match goal with
  | H : date_le _ _ = false |- _ => apply not_true_iff_false in H
  | H : date_lt _ _ = false |- _ => apply not_true_iff_false in H
  | |- date_le _ _ = false => apply not_true_iff_false
  | |- date_lt _ _ = false => apply not_true_iff_false
  end;
  rewrite ?date_le_spec, ?date_lt_spec, ?valid_date_spec, ?date_eq_fields in *;
  simpl in *; lia.

Lemma date_le_refl a : date_le a a = true.
Proof. date_solve. Qed.

Lemma date_le_trans a b c :
  date_le a b = true → date_le b c = true → date_le a c = true.
Proof. intros. date_solve. Qed.

Lemma date_le_total a b : date_le a b = true ∨ date_le b a = true.
Proof. destruct (date_le a b) eqn:?; [by left|right]. date_solve. Qed.

Lemma date_le_antisym a b :
  date_le a b = true → date_le b a = true → a = b.
Proof. intros. date_solve. Qed.

Lemma date_lt_le a b : date_lt a b = true → date_le a b = true.
Proof. intros. date_solve. Qed.

Lemma date_lt_irrefl a : date_lt a a = false.
Proof. date_solve. Qed.

Lemma date_le_lt_or_eq a b :
  date_le a b = true → a = b ∨ date_lt a b = true.
Proof. intros. date_solve. Qed.

Lemma date_lt_le_trans a b c :
  date_lt a b = true → date_le b c = true → date_lt a c = true.
Proof. intros. date_solve. Qed.

Lemma date_le_false_lt a b : date_le a b = false → date_lt b a = true.
Proof. intros. date_solve. Qed.

Lemma days_in_month_bounds y m : 28 ≤ days_in_month y m ≤ 31.
Proof. unfold days_in_month. repeat case_match; lia. Qed.

Lemma date_le_rank a b :
  valid_date a = true → valid_date b = true →
  date_le a b = true → day_rank a ≤ day_rank b.
Proof.
  intros Ha Hb Hle. unfold day_rank, month_index.
  pose proof (days_in_month_bounds (year a) (month a)).
  pose proof (days_in_month_bounds (year b) (month b)).
  date_solve.
Qed.

(** The next day is a date again, later than the day it follows, and no
    date lies between the two. *)
Lemma add_one_day_next d d' :
  valid_date d = true → add_one_day d = Return d' →
  valid_date d' = true ∧ date_lt d d' = true ∧ day_rank d < day_rank d'
  ∧ ∀ x, valid_date x = true → date_lt d x = true → date_le d' x = true.
Proof.
  intros Hv Hd.
  pose proof (days_in_month_bounds (year d) (month d)) as Hb.
  pose proof (days_in_month_bounds (year d) (month d + 1)) as Hb1.
  pose proof (days_in_month_bounds (year d + 1) 1) as Hb2.
  unfold add_one_day, MAXYEAR in Hd. unfold day_rank, month_index.
  destruct (Z.ltb_spec (day d) (days_in_month (year d) (month d)));
    [|destruct (Z.ltb_spec (month d) 12);
      [|destruct (Z.ltb_spec (year d) 9999)]];
    simplify_eq; simpl.
  all: repeat split; [date_solve..|]; intros x Hx Hlt.
  all: assert (year d = year x → month d = month x →
               days_in_month (year x) (month x)
               = days_in_month (year d) (month d)) as Hsame
         by (by intros -> ->).
  all: date_solve.
Qed.

(** [date + timedelta(days=1)] only fails on the last date there is. *)
Lemma add_one_day_overflow d e :
  valid_date d = true → add_one_day d = Raise e →
  e = OverflowError ∧ ∀ x, valid_date x = true → date_le x d = true.
Proof.
  intros Hv Hd. unfold add_one_day, MAXYEAR in Hd.
  destruct (Z.ltb_spec (day d) (days_in_month (year d) (month d)));
    [done|destruct (Z.ltb_spec (month d) 12);
      [done|destruct (Z.ltb_spec (year d) 9999)]];
    simplify_eq.
  split; [done|].
  intros x Hx.
  pose proof (days_in_month_bounds (year x) (month x)).
  assert (month d = 12) as Hm by date_solve.
  assert (days_in_month (year d) (month d) = 31) as Hdim
    by (rewrite Hm; reflexivity).
  date_solve.
Qed.

Lemma days_before_month_next y m :
  1 ≤ m < 12 →
  days_before_month y (m + 1) = days_before_month y m + days_in_month y m.
Proof.
  intros Hm.
  assert (m = 1 ∨ m = 2 ∨ m = 3 ∨ m = 4 ∨ m = 5 ∨ m = 6 ∨ m = 7 ∨ m = 8
          ∨ m = 9 ∨ m = 10 ∨ m = 11) as Hcases by lia.
  unfold days_before_month, days_in_month.
  repeat (destruct Hcases as [->|Hcases]); try subst m; simpl;
    destruct (is_leap y); reflexivity.
Qed.

Lemma days_before_year_next y :
  days_before_year (y + 1)
  = days_before_year y + 365 + (if is_leap y then 1 else 0).
Proof.
  unfold days_before_year, is_leap. cbv zeta.
  replace (y + 1 - 1) with y by lia.
  destruct (Z.eqb_spec (y mod 4) 0), (Z.eqb_spec (y mod 100) 0),
    (Z.eqb_spec (y mod 400) 0); simpl; Z.div_mod_to_equations; lia.
Qed.

(** [add_one_day] is one day on the ordinal scale of [date.toordinal]. *)
Lemma add_one_day_toordinal d d' :
  valid_date d = true → add_one_day d = Return d' →
  toordinal d' = toordinal d + 1.
Proof.
  intros Hv Hd. apply valid_date_spec in Hv.
  unfold add_one_day, MAXYEAR in Hd. unfold toordinal.
  destruct (Z.ltb_spec (day d) (days_in_month (year d) (month d)));
    [|destruct (Z.ltb_spec (month d) 12);
      [|destruct (Z.ltb_spec (year d) 9999)]];
    simplify_eq; simpl.
  - lia.
  - rewrite days_before_month_next by lia. lia.
  - rewrite days_before_year_next.
    assert (month d = 12) as Hm by lia. rewrite Hm in *.
    assert (days_in_month (year d) 12 = 31) as Hdim by reflexivity.
    unfold days_before_month. simpl. destruct (is_leap (year d)); lia.
Qed.

(* ===================================================================== *)
(** ** The progress ledger                                                *)
(* ===================================================================== *)

Arguments max_processed_date : simpl never.

Lemma max_processed_date_nonempty e log :
  ∃ m, max_processed_date (e :: log) = Some m
       ∧ m ∈ processed_date <$> (e :: log)
       ∧ Forall (λ x, date_le (processed_date x) m = true) (e :: log).
Proof.
  revert e. induction log as [|e' log IH]; intros e.
  - exists (processed_date e). split_and!; [done|apply list_elem_of_here|].
    constructor; [apply date_le_refl|constructor].
  - destruct (IH e') as (m & Hm & Hin & Hall).
    change (max_processed_date (e :: e' :: log))
      with (Some (from_option (date_max (processed_date e)) (processed_date e)
                              (max_processed_date (e' :: log)))).
    rewrite Hm. simpl from_option.
    exists (date_max (processed_date e) m). split; [done|].
    unfold date_max. destruct (date_le (processed_date e) m) eqn:Hle.
    + split; [by apply list_elem_of_further|]. by constructor.
    + split; [apply list_elem_of_here|].
      constructor; [apply date_le_refl|].
      eapply Forall_impl; [exact Hall|]. intros x Hx. simpl in Hx.
      eapply date_le_trans; [exact Hx|].
      apply date_lt_le. by apply date_le_false_lt.
Qed.

(** C6 -- lastProcessedDate.  [get_last_processed_date] never raises.  On a
    readable ledger with entries it returns the greatest [processed_date]
    (a date of the ledger that no entry exceeds) and changes nothing; on a
    readable but empty ledger it returns the epoch default 2022-01-01 and
    changes nothing; when the ledger table is absent it reports the error,
    creates the empty table and returns the epoch default; when the table
    is there but cannot be read, create-if-absent leaves it alone and the
    epoch default is returned. *)
Theorem get_last_processed_date_spec (w : world) :
  match db_log (conn w) with
  | LogTable [] =>
      inc_load_price.get_last_processed_date w
      = (Return (inc_load_price.a_datetime (Date 2022 1 1)), w)
  | LogTable (e :: log) =>
      ∃ m, inc_load_price.get_last_processed_date w
           = (Return (inc_load_price.a_date m), w)
           ∧ m ∈ processed_date <$> (e :: log)
           ∧ Forall (λ x, date_le (processed_date x) m = true) (e :: log)
  | LogAbsent =>
      inc_load_price.get_last_processed_date w
      = (Return (inc_load_price.a_datetime (Date 2022 1 1)),
         {| conn := set_log (LogTable []) (conn w);
            temp_price := temp_price w;
            clock := clock w;
            stdout := stdout w ++ [ErrorGettingLastDate CatalogException] |})
  | LogUnreadable =>
      inc_load_price.get_last_processed_date w
      = (Return (inc_load_price.a_datetime (Date 2022 1 1)),
         {| conn := conn w;
            temp_price := temp_price w;
            clock := clock w;
            stdout := stdout w ++ [ErrorGettingLastDate BinderException] |})
  end.
Proof.
  unfold inc_load_price.get_last_processed_date, try_except, bind,
    select_max_processed_date, create_log_if_not_exists, print, ret.
  destruct w as [[p l] t c out]; simpl.
  destruct l as [| |[|e log]]; simpl; try reflexivity.
  destruct (max_processed_date_nonempty e log) as (m & Hm & Hin & Hall).
  exists m. split; [|done].
  change (max_processed_date (e :: log))
    with (Some (from_option (date_max (processed_date e)) (processed_date e)
                            (max_processed_date log))) in Hm.
  by injection Hm as ->.
Qed.

(** C9 -- Progress upsert frame.  The upsert never reaches its conflict
    branch.  Whenever the ledger holds an entry for the date, the statement
    raises [BinderException] (its [SET processed_at = CURRENT_TIMESTAMP] is
    refused when the statement is bound) and the world is as it was: the
    entry keeps its [processed_date] and its [file_url], but also its
    [processed_at] and its [records_loaded], which are not overwritten. *)
Theorem recordProgress_conflict_raises (d : date) (url : string) (n : Z)
    (w : world) (entries : list ProgressEntry) :
  db_log (conn w) = LogTable entries →
  d ∈ processed_date <$> entries →
  recordProgress d url n w = (Raise BinderException, w).
Proof.
  intros Hlog _. unfold recordProgress. by rewrite Hlog.
Qed.

Lemma recordProgress_conflict_raises_witness :
  recordProgress (Date 2022 1 1) "new-url" 5
    {| conn := mkDb None (LogTable [mkEntry (Date 2022 1 1) 7 "old-url" 2]);
       temp_price := None; clock := 0; stdout := [] |}
  = (Raise BinderException,
     {| conn := mkDb None (LogTable [mkEntry (Date 2022 1 1) 7 "old-url" 2]);
        temp_price := None; clock := 0; stdout := [] |}).
Proof.
  apply (recordProgress_conflict_raises (Date 2022 1 1) "new-url" 5
           {| conn := mkDb None (LogTable [mkEntry (Date 2022 1 1) 7 "old-url" 2]);
              temp_price := None; clock := 0; stdout := [] |}
           [mkEntry (Date 2022 1 1) 7 "old-url" 2] eq_refl).
  vm_compute. apply list_elem_of_here.
Defined.

(* ===================================================================== *)
(** ** The dedup merge                                                    *)
(* ===================================================================== *)

Lemma elem_of_new_records target temp p r :
  r ∈ new_records target temp p
  ↔ r ∈ temp ∧ on_target target r ∧ ¬ exists_in_price p r.
Proof.
  unfold new_records. rewrite elem_of_remove_dups, list_elem_of_filter. tauto.
Qed.

Lemma NoDup_new_records target temp p : NoDup (new_records target temp p).
Proof. apply NoDup_remove_dups. Qed.

Lemma filter_none {A} (P : A → Prop) `{!∀ x, Decision (P x)} (l : list A) :
  (∀ x, x ∈ l → ¬ P x) → filter P l = [].
Proof.
  induction l as [|x l IH]; intros Hno; [done|].
  rewrite filter_cons, decide_False by (apply Hno, list_elem_of_here).
  apply IH. intros y Hy. apply Hno. by apply list_elem_of_further.
Qed.

(** Once the new records are in the table, the same batch has none left. *)
Lemma new_records_settled target temp p :
  new_records target temp (p ++ new_records target temp p) = [].
Proof.
  unfold new_records at 1. rewrite filter_none; [done|].
  intros t Ht [Hon Hnew]. apply Hnew. unfold exists_in_price.
  rewrite fmap_app, elem_of_app.
  destruct (decide (exists_in_price p t)) as [Hex|Hex]; [by left|right].
  apply list_elem_of_fmap_2. by apply elem_of_new_records.
Qed.

Lemma key_check_nil stored : key_check stored [].
Proof. split; [apply NoDup_nil_2|constructor]. Qed.

Lemma insert_into_price_nil t : insert_into_price [] t = Return t.
Proof.
  unfold insert_into_price. destruct t as [[] rs]; cbn [primary_key rows].
  - rewrite decide_True by apply key_check_nil. by rewrite app_nil_r.
  - by rewrite app_nil_r.
Qed.

(** [INSERT] appends and keeps the kind of table; a table with a primary
    key takes the rows only when they pass the key check. *)
Lemma insert_into_price_Return new t t' :
  insert_into_price new t = Return t' →
  t' = {| primary_key := primary_key t; rows := rows t ++ new |}
  ∧ (primary_key t = true → key_check (rows t) new).
Proof.
  unfold insert_into_price. destruct (primary_key t) eqn:Hpk.
  - case_decide; [|done]. intros [= <-]. done.
  - intros [= <-]. done.
Qed.

Lemma insert_into_price_Raise new t e :
  insert_into_price new t = Raise e →
  e = ConstraintException ∧ primary_key t = true ∧ ¬ key_check (rows t) new.
Proof.
  unfold insert_into_price. destruct (primary_key t) eqn:Hpk; [|done].
  case_decide; [done|]. intros [= <-]. done.
Qed.

(** The stored identities stay unique under the dedup insert: what it adds
    is new to the table, and a primary key sees to the rest. *)
Lemma key_check_NoDup stored new :
  NoDup (identity <$> stored) → key_check stored new →
  NoDup (identity <$> (stored ++ new)).
Proof.
  intros Hnd [Hnew Hfresh]. rewrite fmap_app. apply NoDup_app.
  split_and!; [done| |done].
  intros k Hk Hk'. apply list_elem_of_fmap in Hk' as (r & -> & Hr).
  rewrite Forall_forall in Hfresh. by apply (Hfresh r).
Qed.

(** C1 -- Idempotent merge.  For every world (every staging batch in
    [temp_price], every [price] table, with or without the date filter of
    the incremental loader): when the dedup insert succeeds and reports [n]
    rows, [n] is the number of rows by which [price] grew, and running the
    same statement again succeeds, reports 0 rows and leaves the world
    exactly as the first run left it; when the dedup insert fails, it has
    changed nothing, so that a second run meets the same world. *)
Theorem insert_new_records_idempotent (target : option date) (w : world) :
  match insert_new_records target w with
  | (Return n, w1) =>
      insert_new_records target w1 = (Return 0, w1)
      ∧ n = Z.of_nat (length (price_rows (conn w1)))
            - Z.of_nat (length (price_rows (conn w)))
  | (Raise e, w1) => w1 = w
  end.
Proof.
  unfold insert_new_records, price_rows.
  destruct w as [[p l] t c out]; simpl.
  destruct t as [temp|]; [|done]. destruct p as [p|]; [|done].
  destruct (insert_into_price (new_records target temp (rows p)) p)
    as [p'|e] eqn:Hins; [|done].
  apply insert_into_price_Return in Hins as [-> _]. simpl.
  rewrite new_records_settled, insert_into_price_nil. simpl.
  split; [done|]. rewrite length_app. lia.
Qed.

(** The row counts of the round trip: the distinct identities of the batch
    split into those the table holds and those it does not. *)
Lemma distinct_identities_split batch stored :
  (length (filter (λ k, k ∉ identity <$> stored) (distinct_identities batch))
   + length (already_present batch stored))%nat
  = length (distinct_identities batch).
Proof.
  unfold already_present.
  rewrite <- (Permutation_length
    (filter_app_complement (λ k, k ∈ identity <$> stored)
                           (distinct_identities batch))).
  rewrite length_app. lia.
Qed.

Lemma new_records_identities batch stored :
  (∀ r r', r ∈ batch → r' ∈ batch → ¬ exists_in_price stored r →
           identity r = identity r' → r = r') →
  NoDup (identity <$> new_records None batch stored)
  ∧ identity <$> new_records None batch stored
    ≡ₚ filter (λ k, k ∉ identity <$> stored) (distinct_identities batch).
Proof.
  intros Hcons.
  assert (NoDup (identity <$> new_records None batch stored)) as Hnd.
  { apply NoDup_fmap_2_strong; [|apply NoDup_new_records].
    intros r r' Hr Hr' Heq.
    apply elem_of_new_records in Hr as (Hr & _ & Hnew).
    apply elem_of_new_records in Hr' as (Hr' & _ & _). by apply Hcons. }
  split; [done|].
  apply NoDup_Permutation; [done|apply NoDup_filter, NoDup_remove_dups|].
  intros k. unfold distinct_identities.
  rewrite list_elem_of_filter, elem_of_remove_dups.
  split.
  - intros Hk. apply list_elem_of_fmap in Hk as (r & -> & Hr).
    apply elem_of_new_records in Hr as (Hr & _ & Hnew).
    split; [exact Hnew|by apply list_elem_of_fmap_2].
  - intros (Hnew & Hk). apply list_elem_of_fmap in Hk as (r & -> & Hr).
    apply list_elem_of_fmap_2. apply elem_of_new_records. by split_and!.
Qed.

Lemma NoDup_fmap_elem_inj {A B} (f : A → B) (l : list A) x y :
  NoDup (f <$> l) → x ∈ l → y ∈ l → f x = f y → x = y.
Proof.
  induction l as [|a l IH]; intros Hnd Hx Hy Hf; [by apply elem_of_nil in Hx|].
  rewrite fmap_cons in Hnd. apply NoDup_cons in Hnd as [Ha Hnd].
  apply elem_of_cons in Hx as [->|Hx]; apply elem_of_cons in Hy as [->|Hy].
  - done.
  - exfalso. apply Ha. rewrite Hf. by apply list_elem_of_fmap_2.
  - exfalso. apply Ha. rewrite <- Hf. by apply list_elem_of_fmap_2.
  - by apply IH.
Qed.

(** C3 -- Round-trip row count, as the code has it.  Let the batch be such
    that rows sharing an identity triple that the table does not hold yet
    are equal as whole rows (no two prices for one new identity).  Then the
    dedup insert of the bulk loader succeeds, and the row count it reports
    and the number of rows it appends both are [N_distinct - M]: the number
    of distinct identity triples of the batch, less the number of those
    already stored. *)
Theorem insert_new_records_row_count (w : world) (batch : list Row)
    (p : price_table) :
  temp_price w = Some batch →
  db_price (conn w) = Some p →
  (∀ r r', r ∈ batch → r' ∈ batch → ¬ exists_in_price (rows p) r →
           identity r = identity r' → r = r') →
  ∃ new,
    insert_new_records None w
    = (Return (Z.of_nat (length (distinct_identities batch))
               - Z.of_nat (length (already_present batch (rows p)))),
       set_conn (set_price (Some {| primary_key := primary_key p;
                                    rows := rows p ++ new |})) w)
    ∧ length new
      = (length (distinct_identities batch)
         - length (already_present batch (rows p)))%nat.
Proof.
  intros Htemp Hprice Hcons.
  destruct (new_records_identities batch (rows p) Hcons) as [Hnd Hperm].
  pose proof (distinct_identities_split batch (rows p)) as Hsplit.
  apply Permutation_length in Hperm. rewrite length_fmap in Hperm.
  exists (new_records None batch (rows p)).
  assert (insert_into_price (new_records None batch (rows p)) p
          = Return {| primary_key := primary_key p;
                      rows := rows p ++ new_records None batch (rows p) |})
    as Hins.
  { unfold insert_into_price. destruct (primary_key p); [|done].
    rewrite decide_True; [done|]. split; [done|].
    apply Forall_forall. intros r Hr.
    by apply elem_of_new_records in Hr as (_ & _ & Hnew). }
  split; [|lia].
  unfold insert_new_records. rewrite Htemp, Hprice. cbv zeta. rewrite Hins.
  do 2 f_equal. lia.
Qed.

Lemma insert_new_records_row_count_witness :
  ∃ new,
    insert_new_records None
      {| conn := mkDb (Some (mkPrice true [])) (LogTable []);
         temp_price := Some [mkRow (Date 2022 1 1) "P1" "I1" 120;
                             mkRow (Date 2022 1 1) "P1" "I1" 120;
                             mkRow (Date 2022 1 1) "P2" "I1" 150];
         clock := 0; stdout := [] |}
    = (Return 2,
       {| conn := mkDb (Some (mkPrice true new)) (LogTable []);
          temp_price := Some [mkRow (Date 2022 1 1) "P1" "I1" 120;
                              mkRow (Date 2022 1 1) "P1" "I1" 120;
                              mkRow (Date 2022 1 1) "P2" "I1" 150];
          clock := 0; stdout := [] |})
    ∧ length new = 2%nat.
Proof.
  destruct (insert_new_records_row_count
              {| conn := mkDb (Some (mkPrice true [])) (LogTable []);
                 temp_price := Some [mkRow (Date 2022 1 1) "P1" "I1" 120;
                                     mkRow (Date 2022 1 1) "P1" "I1" 120;
                                     mkRow (Date 2022 1 1) "P2" "I1" 150];
                 clock := 0; stdout := [] |}
              _ (mkPrice true []) eq_refl eq_refl)
    as (new & Hrun & Hlen).
  - intros r r' Hr Hr' _ Hid.
    repeat (apply elem_of_cons in Hr as [->|Hr]);
      repeat (apply elem_of_cons in Hr' as [->|Hr']);
      try done; by apply elem_of_nil in Hr || by apply elem_of_nil in Hr'.
  - exists new. split; [exact Hrun|exact Hlen].
Defined.

(** C3, the claim as written, fails: a batch of two rows with one identity
    triple and two prices, on an empty table with the primary key, has
    [N_distinct - M = 1 - 0 = 1], yet the dedup insert raises a constraint
    error and inserts nothing. *)
Lemma insert_new_records_row_count_counterexample :
  let batch := [mkRow (Date 2022 1 1) "P1" "I1" 120;
                mkRow (Date 2022 1 1) "P1" "I1" 130] in
  let w := {| conn := mkDb (Some (mkPrice true [])) (LogTable []);
              temp_price := Some batch; clock := 0; stdout := [] |} in
  Z.of_nat (length (distinct_identities batch))
  - Z.of_nat (length (already_present batch [])) = 1
  ∧ insert_new_records None w = (Raise ConstraintException, w).
Proof. vm_compute. done. Qed.

(* ===================================================================== *)
(** ** One step of a loader                                               *)
(* ===================================================================== *)

Lemma bind_Return {A B} (m : M A) (k : A → M B) w a w' :
  m w = (Return a, w') → bind m k w = k a w'.
Proof. intros H. unfold bind. by rewrite H. Qed.

Lemma bind_Raise {A B} (m : M A) (k : A → M B) w e w' :
  m w = (Raise e, w') → bind m k w = (Raise e, w').
Proof. intros H. unfold bind. by rewrite H. Qed.

Lemma status_ok_passes s : status_ok s → (400 <=? s) && (s <? 600) = false.
Proof. unfold status_ok. intros H. apply andb_false_iff. lia. Qed.

Lemma inc_download_parquet_eq E url :
  inc_load_price.download_parquet E url = bulk_load_price.download_parquet E url.
Proof. reflexivity. Qed.

(** A response with a passing status hands its content on. *)
Lemma download_parquet_found E url w s c :
  http_get E (clock w) url = Response s c → status_ok s →
  bulk_load_price.download_parquet E url w = (Return (Some c), advance w).
Proof.
  intros Hget Hs.
  unfold bulk_load_price.download_parquet, try_except, requests_get,
    raise_for_status, bind, tick. simpl. rewrite Hget. simpl.
  rewrite (status_ok_passes s Hs). reflexivity.
Qed.

(** A 404 is swallowed: one line printed, [None] returned. *)
Lemma download_parquet_not_found E url w c :
  http_get E (clock w) url = Response 404 c →
  bulk_load_price.download_parquet E url w
  = (Return None, with_output [FileNotFound url] (advance w)).
Proof.
  intros Hget.
  unfold bulk_load_price.download_parquet, try_except, requests_get,
    raise_for_status, bind, tick. simpl. rewrite Hget. reflexivity.
Qed.

(** Two rows of the batch with one new identity and two prices both reach
    the insert, which the primary key then refuses. *)
Lemma conflicting_rows_refused target batch p r r' :
  primary_key p = true →
  r ∈ batch → r' ∈ batch → identity r = identity r' → price r ≠ price r' →
  ¬ exists_in_price (rows p) r → on_target target r →
  r ∈ new_records target batch (rows p)
  ∧ r' ∈ new_records target batch (rows p)
  ∧ insert_into_price (new_records target batch (rows p)) p
    = Raise ConstraintException.
Proof.
  intros Hpk Hr Hr' Hid Hprice Hnew Hon.
  assert (r ∈ new_records target batch (rows p)) as Hin
    by (by apply elem_of_new_records).
  assert (r' ∈ new_records target batch (rows p)) as Hin'.
  { apply elem_of_new_records. split_and!; [done| |].
    - destruct target as [d|]; [|done]. simpl in *.
      unfold identity in Hid. congruence.
    - unfold exists_in_price in *. by rewrite <- Hid. }
  split_and!; [done..|].
  unfold insert_into_price. rewrite Hpk. rewrite decide_False; [done|].
  intros [Hnd _]. apply Hprice.
  by rewrite (NoDup_fmap_elem_inj identity _ r r' Hnd Hin Hin' Hid).
Qed.

(** C10 -- In-batch identity collision aborts the merge.  Let the fetched
    file decode to a batch holding two rows with the same identity triple
    and different prices, that identity not being stored yet, and let
    [price] have its composite primary key.  Then [DISTINCT] keeps both rows
    among the new records (with and without the date filter), the insert
    raises a constraint error, and [process_monthly_file] of the bulk loader
    and of the incremental loader (on the date of these rows) ends in that
    error with the database as it was: no representative row is inserted. *)
Theorem conflicting_prices_abort (E : Env) (w : world) (p : price_table)
    (batch : list Row) (r r' : Row) (year_month url : string) (s : Z) :
  temp_price w = None →
  db_price (conn w) = Some p →
  primary_key p = true →
  http_get E (clock w) url = Response s (Parquet batch) →
  status_ok s →
  r ∈ batch → r' ∈ batch →
  identity r = identity r' → price r ≠ price r' →
  ¬ exists_in_price (rows p) r →
  (r ∈ new_records None batch (rows p)
   ∧ r' ∈ new_records None batch (rows p)
   ∧ insert_into_price (new_records None batch (rows p)) p
     = Raise ConstraintException)
  ∧ (r ∈ new_records (Some (row_date r)) batch (rows p)
     ∧ r' ∈ new_records (Some (row_date r)) batch (rows p)
     ∧ insert_into_price (new_records (Some (row_date r)) batch (rows p)) p
       = Raise ConstraintException)
  ∧ (∃ w', bulk_load_price.process_monthly_file E year_month url w
           = (Raise ConstraintException, w')
           ∧ conn w' = conn w)
  ∧ (∃ w', inc_load_price.process_monthly_file E (row_date r) url w
           = (Raise ConstraintException, w')
           ∧ conn w' = conn w).
Proof.
  intros Htemp Hprice Hpk Hget Hs Hr Hr' Hid Hpr Hnew.
  pose proof (conflicting_rows_refused None batch p r r'
                Hpk Hr Hr' Hid Hpr Hnew I) as HN.
  pose proof (conflicting_rows_refused (Some (row_date r)) batch p r r'
                Hpk Hr Hr' Hid Hpr Hnew eq_refl) as HS.
  split; [exact HN|]. split; [exact HS|].
  destruct HN as (_ & _ & HN). destruct HS as (_ & _ & HS).
  destruct w as [[pr l] t c out]. simpl in *. subst t pr.
  split.
  - eexists. split.
    + unfold bulk_load_price.process_monthly_file.
      erewrite bind_Return by reflexivity.
      erewrite bind_Return by (eapply download_parquet_found; [exact Hget|exact Hs]).
      cbv beta iota.
      erewrite bind_Return by reflexivity.
      eapply bind_Raise.
      unfold insert_new_records; simpl; rewrite HN; reflexivity.
    + reflexivity.
  - eexists. split.
    + unfold inc_load_price.process_monthly_file.
      erewrite bind_Return by reflexivity.
      rewrite inc_download_parquet_eq.
      erewrite bind_Return by (eapply download_parquet_found; [exact Hget|exact Hs]).
      cbv beta iota.
      erewrite bind_Return by reflexivity.
      eapply bind_Raise.
      unfold insert_new_records; simpl; rewrite HS; reflexivity.
    + reflexivity.
Qed.

Lemma conflicting_prices_abort_witness :
  ∃ w', bulk_load_price.process_monthly_file
          (serving [(pricecatcher_url (Date 2022 1 1), [row_P1; row_P1_130])]
                   (Date 2022 1 3))
          "2022-01" (pricecatcher_url (Date 2022 1 1))
          (fresh_world (mkDb (Some (mkPrice true [])) (LogTable [])))
        = (Raise ConstraintException, w')
        ∧ conn w' = mkDb (Some (mkPrice true [])) (LogTable []).
Proof.
  refine (proj1 (proj2 (proj2
    (conflicting_prices_abort
       (serving [(pricecatcher_url (Date 2022 1 1), [row_P1; row_P1_130])]
                (Date 2022 1 3))
       (fresh_world (mkDb (Some (mkPrice true [])) (LogTable [])))
       (mkPrice true []) [row_P1; row_P1_130] row_P1 row_P1_130
       "2022-01" (pricecatcher_url (Date 2022 1 1)) 200
       eq_refl eq_refl eq_refl eq_refl _ _ _ eq_refl _ _)))).
  - left. lia.
  - apply list_elem_of_here.
  - apply list_elem_of_further, list_elem_of_here.
  - discriminate.
  - apply not_elem_of_nil.
Defined.

(** C5 -- Missing-period tolerance.  When the fetch of a period answers 404:
    in backfill mode [process_monthly_file] returns [None] without raising,
    the step leaves the database (price table and ledger) and the running
    total as they were, and the loop goes on with the remaining months; in
    incremental mode [process_monthly_file] returns 0 without raising, the
    step writes nothing to the database, and the loop goes on with the next
    day (when there is one left to process). *)
Theorem not_found_is_skipped (E : Env) (w : world)
    (month_data : bulk_load_price.month_data)
    (rest : list bulk_load_price.month_data) (total_records : Z)
    (date current_date : date) (fuel : nat) (c c' : file_content) :
  http_get E (clock w) (bulk_load_price.url month_data) = Response 404 c →
  http_get E (clock w) (pricecatcher_url date) = Response 404 c' →
  let w_bulk :=
    with_output [FileNotFound (bulk_load_price.url month_data)]
      (advance (with_output
         [ProcessingMonth (bulk_load_price.year_month month_data)
                          (bulk_load_price.url month_data)] w)) in
  let w_inc :=
    with_output [FileNotFound (pricecatcher_url date)]
      (advance (with_output [ProcessingDay date (pricecatcher_url date)] w)) in
  (bulk_load_price.process_monthly_file E
     (bulk_load_price.year_month month_data) (bulk_load_price.url month_data) w
   = (Return None, w_bulk)
   ∧ bulk_load_price.month_step E month_data total_records w
     = (Return total_records, w_bulk)
   ∧ bulk_load_price.month_loop E (month_data :: rest) total_records w
     = bulk_load_price.month_loop E rest total_records w_bulk
   ∧ conn w_bulk = conn w)
  ∧ (inc_load_price.process_monthly_file E date (pricecatcher_url date) w
     = (Return 0, w_inc)
     ∧ inc_load_price.day_step E date w = (Return tt, w_inc)
     ∧ inc_load_price.day_loop E (S fuel) date current_date w
       = (if date_le date current_date then
            match add_one_day date with
            | Return next => inc_load_price.day_loop E fuel next current_date w_inc
            | Raise e => Some (Raise e, w_inc)
            end
          else Some (Return tt, w))
     ∧ conn w_inc = conn w).
Proof.
  intros Hbulk Hinc w_bulk w_inc.
  assert (bulk_load_price.process_monthly_file E
            (bulk_load_price.year_month month_data)
            (bulk_load_price.url month_data) w = (Return None, w_bulk)) as Hp.
  { unfold bulk_load_price.process_monthly_file.
    erewrite bind_Return by reflexivity.
    erewrite bind_Return
      by (eapply download_parquet_not_found; exact Hbulk).
    reflexivity. }
  assert (bulk_load_price.month_step E month_data total_records w
          = (Return total_records, w_bulk)) as Hs.
  { unfold bulk_load_price.month_step.
    erewrite bind_Return by exact Hp. reflexivity. }
  assert (inc_load_price.process_monthly_file E date (pricecatcher_url date) w
          = (Return 0, w_inc)) as Hq.
  { unfold inc_load_price.process_monthly_file.
    erewrite bind_Return by reflexivity.
    rewrite inc_download_parquet_eq.
    erewrite bind_Return
      by (eapply download_parquet_not_found; exact Hinc).
    reflexivity. }
  assert (inc_load_price.day_step E date w = (Return tt, w_inc)) as Hd.
  { unfold inc_load_price.day_step.
    erewrite bind_Return by exact Hq. reflexivity. }
  split.
  - split_and!; [exact Hp|exact Hs| |reflexivity].
    simpl. erewrite bind_Return by exact Hs. reflexivity.
  - split_and!; [exact Hq|exact Hd| |reflexivity].
    simpl. rewrite Hd. reflexivity.
Qed.

Lemma not_found_is_skipped_witness :
  bulk_load_price.month_loop (serving [] (Date 2022 4 30))
    [month_entry (Date 2022 3 1); month_entry (Date 2022 4 1)] 0
    (fresh_world (mkDb (Some (mkPrice true [])) (LogTable [])))
  = bulk_load_price.month_loop (serving [] (Date 2022 4 30))
      [month_entry (Date 2022 4 1)] 0
      (with_output [FileNotFound (pricecatcher_url (Date 2022 3 1))]
         (advance (with_output
            [ProcessingMonth (strftime_Y_m (Date 2022 3 1))
                             (pricecatcher_url (Date 2022 3 1))]
            (fresh_world (mkDb (Some (mkPrice true [])) (LogTable [])))))).
Proof.
  exact (proj1 (proj2 (proj2 (proj1
    (not_found_is_skipped (serving [] (Date 2022 4 30))
       (fresh_world (mkDb (Some (mkPrice true [])) (LogTable [])))
       (month_entry (Date 2022 3 1)) [month_entry (Date 2022 4 1)] 0
       (Date 2022 3 1) (Date 2022 4 30) 0 NotParquet NotParquet
       eq_refl eq_refl))))).
Defined.

(* ===================================================================== *)
(** ** Backfill: the months of a run                                      *)
(* ===================================================================== *)

Lemma replace_day_1_month_start d :
  1 ≤ month d ≤ 12 → replace_day_1 d = month_start (month_index d).
Proof.
  intros Hm. unfold replace_day_1, month_start, month_index.
  f_equal.
  - Z.div_mod_to_equations. lia.
  - Z.div_mod_to_equations. lia.
Qed.

Lemma month_index_month_start i : month_index (month_start i) = i.
Proof.
  unfold month_index, month_start. simpl. Z.div_mod_to_equations. lia.
Qed.

(** The loop test, on the first day of month [i]. *)
Lemma date_le_month_start i e :
  valid_date e = true →
  date_le (month_start i) e = true ↔ i ≤ month_index e.
Proof.
  intros He. apply valid_date_spec in He.
  rewrite date_le_spec. unfold month_start, month_index. simpl.
  Z.div_mod_to_equations. lia.
Qed.

(** [+ relativedelta(months=1)] on the first day of month [i]. *)
Lemma add_one_month_month_start i :
  add_one_month (month_start i)
  = if (i + 1) / 12 <=? MAXYEAR
    then Return (month_start (i + 1))
    else Raise ValueError.
Proof.
  unfold add_one_month, month_start, MAXYEAR. simpl.
  assert (0 ≤ i mod 12 < 12) as Hmod by (apply Z.mod_pos_bound; lia).
  destruct (Z.ltb_spec (i mod 12 + 1) 12) as [Hlt|Hge].
  - assert ((i + 1) / 12 = i / 12) as -> by (Z.div_mod_to_equations; lia).
    assert ((i + 1) mod 12 = i mod 12 + 1) as ->
      by (Z.div_mod_to_equations; lia).
    destruct (i / 12 <=? 9999); [|done].
    f_equal. f_equal.
    pose proof (days_in_month_bounds (i / 12) (i mod 12 + 1 + 1)). lia.
  - assert ((i + 1) / 12 = i / 12 + 1) as -> by (Z.div_mod_to_equations; lia).
    assert ((i + 1) mod 12 = 0) as -> by (Z.div_mod_to_equations; lia).
    destruct (i / 12 + 1 <=? 9999); reflexivity.
Qed.

(** The loop, started on the first day of month [i]: it appends the months
    [i, i+1, ..., month_index end_date], as long as the month after the last
    one is still a date. *)
Lemma generate_month_urls_loop_spec fuel i end_date urls :
  valid_date end_date = true →
  month_index end_date < 9999 * 12 + 11 →
  (Z.to_nat (month_index end_date - i + 1) < fuel)%nat →
  bulk_load_price.generate_month_urls_loop fuel (month_start i) end_date urls
  = Some (Return (urls ++ ((month_entry ∘ month_start)
                           <$> seqZ i (month_index end_date - i + 1)))).
Proof.
  intros He Hlast. revert i urls.
  induction fuel as [|fuel IH]; intros i urls Hfuel; [lia|].
  simpl. destruct (date_le (month_start i) end_date) eqn:Hle.
  - apply date_le_month_start in Hle; [|done].
    rewrite add_one_month_month_start.
    assert (((i + 1) / 12 <=? MAXYEAR) = true) as ->.
    { apply Z.leb_le. unfold MAXYEAR. Z.div_mod_to_equations. lia. }
    rewrite IH by lia.
    rewrite (seqZ_cons i) by lia. rewrite fmap_cons, <- app_assoc. simpl.
    replace (Z.succ i) with (i + 1) by lia.
    replace (Z.pred (month_index end_date - i + 1))
      with (month_index end_date - (i + 1) + 1) by lia.
    reflexivity.
  - assert (¬ i ≤ month_index end_date) as Hgt.
    { intros Hi. apply (date_le_month_start i end_date He) in Hi. congruence. }
    rewrite seqZ_nil by lia. by rewrite app_nil_r.
Qed.

(** C7 -- Backfill period selection, as the code has it.  For dates
    [start_date <= end_date] with [end_date] before December 9999, and with
    enough fuel for the loop, [generate_month_urls] returns exactly one
    entry per calendar month, from the month of [start_date] through the
    month of [end_date] inclusive, in chronological order: the entries of
    the months with index [month_index start_date], ..., [month_index
    end_date]. *)
Theorem generate_month_urls_months (start_date end_date : date) (fuel : nat) :
  valid_date start_date = true →
  valid_date end_date = true →
  date_le start_date end_date = true →
  ¬ (year end_date = 9999 ∧ month end_date = 12) →
  (Z.to_nat (month_index end_date - month_index start_date + 1) < fuel)%nat →
  bulk_load_price.generate_month_urls fuel start_date end_date
  = Some (Return ((month_entry ∘ month_start)
                  <$> seqZ (month_index start_date)
                           (month_index end_date - month_index start_date + 1))).
Proof.
  intros Hs He Hle Hlast Hfuel.
  unfold bulk_load_price.generate_month_urls.
  pose proof Hs as Hs'. pose proof He as He'.
  apply valid_date_spec in Hs'. apply valid_date_spec in He'.
  rewrite replace_day_1_month_start by lia.
  rewrite generate_month_urls_loop_spec; [done|done| |done].
  unfold month_index. lia.
Qed.

(** The scenario of the specification: start 2022-01-01, end 2022-02-15. *)
Lemma generate_month_urls_months_witness :
  bulk_load_price.generate_month_urls 3 (Date 2022 1 1) (Date 2022 2 15)
  = Some (Return
      [ {| bulk_load_price.url :=
             "https://storage.data.gov.my/pricecatcher/pricecatcher_2022-01.parquet";
           bulk_load_price.year_month := "2022-01" |};
        {| bulk_load_price.url :=
             "https://storage.data.gov.my/pricecatcher/pricecatcher_2022-02.parquet";
           bulk_load_price.year_month := "2022-02" |} ]).
Proof.
  refine (generate_month_urls_months (Date 2022 1 1) (Date 2022 2 15) 3
            eq_refl eq_refl eq_refl _ _).
  - intros [H _]. discriminate H.
  - vm_compute. lia.
Defined.

(** C7, the claim as written, fails for an end date in December 9999: the
    loop appends that month and then asks for the month after it, which
    [date] cannot hold, so that [generate_month_urls] raises and returns no
    period at all. *)
Lemma generate_month_urls_counterexample :
  date_le (Date 9999 11 1) (Date 9999 12 15) = true
  ∧ bulk_load_price.generate_month_urls 3 (Date 9999 11 1) (Date 9999 12 15)
    = Some (Raise ValueError).
Proof. split; reflexivity. Qed.

(* ===================================================================== *)
(** ** Backfill: one month                                                *)
(* ===================================================================== *)

Lemma elem_of_distinct_dates d batch :
  d ∈ distinct_dates batch ↔ d ∈ row_date <$> batch.
Proof.
  unfold distinct_dates.
  rewrite (merge_sort_Permutation date_le_rel _). apply elem_of_remove_dups.
Qed.

Lemma distinct_dates_nil batch : distinct_dates batch = [] → batch = [].
Proof.
  intros Hnil. destruct batch as [|r batch]; [done|].
  assert (row_date r ∈ distinct_dates (r :: batch)) as Hin
    by (apply elem_of_distinct_dates, list_elem_of_here).
  rewrite Hnil in Hin. by apply elem_of_nil in Hin.
Qed.

(** A month whose file is served and whose rows pass the insert: the rows
    are in [price], and the count handed back is the [-1] of the late
    [result.rowcount]. *)
Lemma bulk_process_monthly_file_ok E year_month url w s batch p p' :
  temp_price w = None →
  db_price (conn w) = Some p →
  http_get E (clock w) url = Response s (Parquet batch) →
  status_ok s →
  insert_into_price (new_records None batch (rows p)) p = Return p' →
  bulk_load_price.process_monthly_file E year_month url w
  = (Return (Some {| bulk_load_price.result_records_loaded := -1;
                     bulk_load_price.result_dates := distinct_dates batch |}),
     {| conn := set_price (Some p') (conn w);
        temp_price := None;
        clock := S (clock w);
        stdout := stdout w ++ [ProcessingMonth year_month url] |}).
Proof.
  intros Htemp Hprice Hget Hs Hins.
  destruct w as [[pr l] t c out]. simpl in *. subst t pr.
  unfold bulk_load_price.process_monthly_file.
  erewrite bind_Return by reflexivity.
  erewrite bind_Return by (eapply download_parquet_found; [exact Hget|exact Hs]).
  cbv beta iota.
  erewrite bind_Return by reflexivity.
  erewrite bind_Return
    by (unfold insert_new_records; simpl; rewrite Hins; reflexivity).
  erewrite bind_Return by reflexivity.
  erewrite bind_Return by reflexivity.
  erewrite bind_Return by reflexivity.
  reflexivity.
Qed.

(** The upsert changes nothing and raises. *)
Lemma recordProgress_effect d url n w :
  ∃ e, recordProgress d url n w = (Raise e, w)
       ∧ (e = BinderException ∨ e = CatalogException).
Proof.
  unfold recordProgress. destruct (db_log (conn w)); eauto.
Qed.

(** The upserts of one month: the first of them raises. *)
Lemma for_each_recordProgress_effect url n dates w o w' :
  for_each dates (λ d, recordProgress d url n) w = (o, w') →
  w' = w
  ∧ match o with
    | Return _ => dates = []
    | Raise e => e = BinderException ∨ e = CatalogException
    end.
Proof.
  destruct dates as [|d dates]; simpl.
  - intros [= <- <-]. done.
  - destruct (recordProgress_effect d url n w) as (e & Hstep & He).
    erewrite bind_Raise by exact Hstep. intros [= <- <-]. done.
Qed.

Lemma for_each_recordProgress_raises url n d dates w :
  db_log (conn w) ≠ LogAbsent →
  for_each (d :: dates) (λ d, recordProgress d url n) w
  = (Raise BinderException, w).
Proof.
  intros Hlog. simpl. eapply bind_Raise.
  unfold recordProgress. by destruct (db_log (conn w)).
Qed.

(** A month whose file is served with rows that pass the insert: the rows
    are inserted, and the first upsert into the ledger ends the step. *)
Lemma month_step_on_data E md total w s batch p p' :
  temp_price w = None →
  db_price (conn w) = Some p →
  db_log (conn w) ≠ LogAbsent →
  http_get E (clock w) (bulk_load_price.url md) = Response s (Parquet batch) →
  status_ok s →
  batch ≠ [] →
  insert_into_price (new_records None batch (rows p)) p = Return p' →
  bulk_load_price.month_step E md total w
  = (Raise BinderException,
     {| conn := set_price (Some p') (conn w);
        temp_price := None;
        clock := S (clock w);
        stdout := stdout w
                  ++ [ProcessingMonth (bulk_load_price.year_month md)
                                      (bulk_load_price.url md)] |}).
Proof.
  intros Htemp Hprice Hlog Hget Hs Hne Hins.
  unfold bulk_load_price.month_step.
  erewrite bind_Return
    by (eapply bulk_process_monthly_file_ok; eassumption).
  cbv beta iota.
  cbn [bulk_load_price.result_dates bulk_load_price.result_records_loaded].
  destruct (distinct_dates batch) as [|d0 dates] eqn:Hdates.
  { by apply distinct_dates_nil in Hdates. }
  eapply bind_Raise.
  eapply for_each_recordProgress_raises. exact Hlog.
Qed.

(** C8 -- Backfill ledger writes.  For a month whose file is served with
    at least one row and whose dedup insert succeeds, [process_monthly_file]
    hands back [records_loaded = -1] (not the month's insert count), and
    the step of the backfill loop ends on the first upsert with
    [BinderException]: the rows are in the local [price] table, and the
    ledger holds exactly the entries it held, none written for the dates of
    the file. *)
Theorem month_step_writes_no_entry (E : Env) (w : world)
    (month_data : bulk_load_price.month_data) (total_records : Z) (s : Z)
    (batch : list Row) (p p' : price_table) (entries : list ProgressEntry) :
  temp_price w = None →
  db_price (conn w) = Some p →
  db_log (conn w) = LogTable entries →
  http_get E (clock w) (bulk_load_price.url month_data)
    = Response s (Parquet batch) →
  status_ok s →
  batch ≠ [] →
  insert_into_price (new_records None batch (rows p)) p = Return p' →
  ∃ w',
    bulk_load_price.process_monthly_file E
      (bulk_load_price.year_month month_data) (bulk_load_price.url month_data) w
    = (Return (Some {| bulk_load_price.result_records_loaded := -1;
                       bulk_load_price.result_dates := distinct_dates batch |}),
       w')
    ∧ bulk_load_price.month_step E month_data total_records w
      = (Raise BinderException, w')
    ∧ db_price (conn w') = Some p'
    ∧ rows p' = rows p ++ new_records None batch (rows p)
    ∧ db_log (conn w') = LogTable entries.
Proof.
  intros Htemp Hprice Hlog Hget Hs Hne Hins.
  eexists. split_and!.
  - eapply bulk_process_monthly_file_ok; eassumption.
  - eapply month_step_on_data; try eassumption. by rewrite Hlog.
  - reflexivity.
  - by apply insert_into_price_Return in Hins as [-> _].
  - exact Hlog.
Qed.

Lemma month_step_writes_no_entry_witness :
  ∃ w',
    bulk_load_price.process_monthly_file
      (serving [(pricecatcher_url (Date 2022 1 1), [row_P1; row_P1; row_P2])]
               (Date 2022 2 15))
      "2022-01" (pricecatcher_url (Date 2022 1 1))
      (fresh_world (mkDb (Some (mkPrice true [])) (LogTable [])))
    = (Return (Some {| bulk_load_price.result_records_loaded := -1;
                       bulk_load_price.result_dates := [Date 2022 1 1] |}),
       w')
    ∧ bulk_load_price.month_step
        (serving [(pricecatcher_url (Date 2022 1 1), [row_P1; row_P1; row_P2])]
                 (Date 2022 2 15))
        (month_entry (Date 2022 1 1)) 0
        (fresh_world (mkDb (Some (mkPrice true [])) (LogTable [])))
      = (Raise BinderException, w')
    ∧ db_price (conn w') = Some (mkPrice true [row_P1; row_P2])
    ∧ db_log (conn w') = LogTable [].
Proof.
  destruct (month_step_writes_no_entry
              (serving [(pricecatcher_url (Date 2022 1 1), [row_P1; row_P1; row_P2])]
                       (Date 2022 2 15))
              (fresh_world (mkDb (Some (mkPrice true [])) (LogTable [])))
              (month_entry (Date 2022 1 1)) 0 200
              [row_P1; row_P1; row_P2]
              (mkPrice true []) (mkPrice true [row_P1; row_P2]) []
              eq_refl eq_refl eq_refl
              ltac:(vm_compute; reflexivity)
              ltac:(left; lia)
              ltac:(discriminate)
              ltac:(vm_compute; reflexivity))
    as (w' & Hproc & Hrun & Hprice & _ & Hlog).
  exists w'. split_and!; [exact Hproc|exact Hrun|exact Hprice|exact Hlog].
Defined.

(* ===================================================================== *)
(** ** Incremental: one day                                               *)
(* ===================================================================== *)

Arguments new_records : simpl never.
Arguments insert_into_price : simpl never.

Lemma days_processed_app out out' :
  days_processed (out ++ out') = days_processed out ++ days_processed out'.
Proof. apply omap_app. Qed.

Ltac trace_solve :=
  repeat rewrite days_processed_app; simpl; rewrite ?app_nil_r; try reflexivity.

(** What one call of the incremental [process_monthly_file] does, whatever
    the server answers: one more day on the trace, the ledger untouched,
    and rows appended to [price] that all are of that day and were not
    stored before.  It returns only when nothing was fetched, and then
    with 0. *)
Lemma inc_process_monthly_file_effect E d url w o w' :
  inc_load_price.process_monthly_file E d url w = (o, w') →
  days_processed (stdout w') = days_processed (stdout w) ++ [d]
  ∧ db_log (conn w') = db_log (conn w)
  ∧ ∃ added,
      price_rows (conn w') = price_rows (conn w) ++ added
      ∧ (∀ r, r ∈ added →
              row_date r = d ∧ ¬ exists_in_price (price_rows (conn w)) r)
      ∧ match o with
        | Return n => n = 0 ∧ added = []
        | Raise e => e ≠ OverflowError
        end.
Proof.
  intros H. destruct w as [[pr l] t c out].
  unfold inc_load_price.process_monthly_file, inc_load_price.download_parquet,
    try_except, requests_get, raise_for_status, create_temp_price,
    insert_new_records, drop_temp_price, row_count,
    bind, print, tick, ret, raise in H.
  unfold price_rows. simpl in *.
  assert (∀ o0 w0, (o0, w0) = (o, w') → o0 = o ∧ w0 = w') as Hinv
    by (by intros ?? [= -> ->]).
  destruct (http_get E c url) as [s content|]; simpl in H.
  2: { apply Hinv in H as [<- <-]. simpl. split; [trace_solve|]. split; [done|].
       exists []. rewrite app_nil_r. split_and!; try done.
       intros r Hr. by apply elem_of_nil in Hr. }
  destruct ((400 <=? s) && (s <? 600)); simpl in H.
  { destruct (s =? 404); simpl in H; apply Hinv in H as [<- <-]; simpl.
    all: split; [trace_solve|]; split; [done|].
    all: exists []; rewrite app_nil_r; split_and!; try done.
    all: intros r Hr; by apply elem_of_nil in Hr. }
  destruct content as [batch|]; simpl in H.
  2: { apply Hinv in H as [<- <-]. simpl. split; [trace_solve|]. split; [done|].
       exists []. rewrite app_nil_r. split_and!; try done.
       intros r Hr. by apply elem_of_nil in Hr. }
  destruct t as [temp|]; simpl in H.
  { apply Hinv in H as [<- <-]. simpl. split; [trace_solve|]. split; [done|].
    exists []. rewrite app_nil_r. split_and!; try done.
    intros r Hr. by apply elem_of_nil in Hr. }
  destruct pr as [p|]; simpl in H.
  2: { apply Hinv in H as [<- <-]. simpl. split; [trace_solve|]. split; [done|].
       exists []. split_and!; try done.
       intros r Hr. by apply elem_of_nil in Hr. }
  destruct (insert_into_price (new_records (Some d) batch (rows p)) p)
    as [p'|e] eqn:Hins; simpl in H.
  - apply Hinv in H as [<- <-]. simpl. split; [trace_solve|]. split; [done|].
    apply insert_into_price_Return in Hins as [-> _]. simpl.
    exists (new_records (Some d) batch (rows p)). split_and!; [done| |done].
    intros r Hr. apply elem_of_new_records in Hr as (_ & Hon & Hnew). done.
  - apply Hinv in H as [<- <-]. simpl. split; [trace_solve|]. split; [done|].
    apply insert_into_price_Raise in Hins as (-> & _).
    exists []. rewrite app_nil_r. split_and!; try done.
    intros r Hr. by apply elem_of_nil in Hr.
Qed.

(** What one pass of the body of the [while] loop does: a pass that
    returns has fetched nothing and added nothing. *)
Lemma day_step_effect E d w o w' :
  inc_load_price.day_step E d w = (o, w') →
  days_processed (stdout w') = days_processed (stdout w) ++ [d]
  ∧ match o with
    | Return _ => True
    | Raise e => e ≠ OverflowError
    end
  ∧ db_log (conn w') = db_log (conn w)
  ∧ ∃ added,
      price_rows (conn w') = price_rows (conn w) ++ added
      ∧ (∀ r, r ∈ added →
              row_date r = d ∧ ¬ exists_in_price (price_rows (conn w)) r)
      ∧ match o with
        | Return _ => added = []
        | Raise _ => True
        end.
Proof.
  unfold inc_load_price.day_step, bind. intros H.
  destruct (inc_load_price.process_monthly_file E d (pricecatcher_url d) w)
    as [[n|e] w1] eqn:Hproc.
  - apply inc_process_monthly_file_effect in Hproc
      as (Htrace & Hlog & added & Hrows & Hadded & -> & ->).
    simpl in H. unfold ret in H. simplify_eq.
    split; [done|]. split; [done|]. split; [done|].
    exists []. done.
  - simplify_eq.
    apply inc_process_monthly_file_effect in Hproc
      as (Htrace & Hlog & added & Hrows & Hadded & Hne).
    split; [done|]. split; [done|]. split; [done|].
    exists added. done.
Qed.

(** A single-priced batch passes the key check. *)
Lemma new_records_key_check target batch stored :
  single_priced batch → key_check stored (new_records target batch stored).
Proof.
  intros Hsp. split.
  - apply NoDup_fmap_2_strong; [|apply NoDup_new_records].
    intros r r' Hr Hr' Hid.
    apply elem_of_new_records in Hr as (Hr & _).
    apply elem_of_new_records in Hr' as (Hr' & _). by apply Hsp.
  - apply Forall_forall. intros r Hr.
    by apply elem_of_new_records in Hr as (_ & _ & Hnew).
Qed.

Lemma insert_into_price_single_priced target batch p :
  single_priced batch →
  insert_into_price (new_records target batch (rows p)) p
  = Return {| primary_key := primary_key p;
              rows := rows p ++ new_records target batch (rows p) |}.
Proof.
  intros Hsp.
  pose proof (new_records_key_check target batch (rows p) Hsp) as Hkey.
  unfold insert_into_price. destruct (primary_key p); [|done].
  by rewrite decide_True.
Qed.

(** A day whose month is served with a single-priced snapshot: the rows of
    the day are inserted, and [.row_count] ends the step, with the
    temporary table still there. *)
Lemma day_step_on_data E d w s batch p :
  temp_price w = None →
  db_price (conn w) = Some p →
  http_get E (clock w) (pricecatcher_url d) = Response s (Parquet batch) →
  status_ok s →
  single_priced batch →
  inc_load_price.day_step E d w
  = (Raise AttributeError,
     {| conn := set_price
                  (Some {| primary_key := primary_key p;
                           rows := rows p
                                   ++ new_records (Some d) batch (rows p) |})
                  (conn w);
        temp_price := Some batch;
        clock := S (clock w);
        stdout := stdout w ++ [ProcessingDay d (pricecatcher_url d)] |}).
Proof.
  intros Htemp Hprice Hget Hs Hsp.
  pose proof (insert_into_price_single_priced (Some d) batch p Hsp) as Hins.
  destruct w as [[pr l] t c out]. simpl in *. subst t pr.
  unfold inc_load_price.day_step, inc_load_price.process_monthly_file.
  eapply bind_Raise.
  erewrite bind_Return by reflexivity.
  erewrite bind_Return
    by (rewrite inc_download_parquet_eq;
        eapply download_parquet_found; [exact Hget|exact Hs]).
  cbv beta iota.
  erewrite bind_Return by reflexivity.
  erewrite bind_Return
    by (unfold insert_new_records; simpl; rewrite Hins; reflexivity).
  reflexivity.
Qed.

(* ===================================================================== *)
(** ** Incremental: the day loop                                          *)
(* ===================================================================== *)

Lemma resumed_nothing D T w :
  date_le D T = false → resumed D T w (Return tt) w [] [].
Proof.
  intros Hgt. unfold resumed. rewrite !app_nil_r. split_and!.
  - done.
  - done.
  - constructor.
  - intros x Hx. by apply elem_of_nil in Hx.
  - intros x y _ Hy. by apply elem_of_nil in Hy.
  - intros _ x _ H1 H2. rewrite (date_le_trans _ _ _ H1 H2) in Hgt. done.
  - intros r Hr. by apply elem_of_nil in Hr.
  - done.
Qed.

(** The last pass of the loop: its step failed, or the step went through
    and there is no day after [d]. *)
Lemma resumed_last d T w o w' added :
  valid_date d = true → date_le d T = true →
  days_processed (stdout w') = days_processed (stdout w) ++ [d] →
  price_rows (conn w') = price_rows (conn w) ++ added →
  (∀ r, r ∈ added →
        row_date r = d ∧ ¬ exists_in_price (price_rows (conn w)) r) →
  db_log (conn w') = db_log (conn w) →
  (ran_to_end o → ∀ x, valid_date x = true → date_le x d = true) →
  resumed d T w o w' [d] added.
Proof.
  intros Hv Hle Htrace Hrows Hadded Hlog Hend. unfold resumed. split_and!.
  - done.
  - done.
  - repeat constructor.
  - intros x Hx. apply list_elem_of_singleton in Hx as ->.
    split_and!; [done|apply date_le_refl|done].
  - intros x y _ Hy H1 H2. apply list_elem_of_singleton in Hy as ->.
    apply list_elem_of_singleton. by apply date_le_antisym.
  - intros Ho x Hx H1 _. apply list_elem_of_singleton.
    apply date_le_antisym; [by apply Hend|done].
  - intros r Hr. destruct (Hadded r Hr) as [-> Hnew].
    split; [apply list_elem_of_here|done].
  - done.
Qed.

(** A pass of the loop followed by the rest of the loop. *)
Lemma resumed_step d next T w w1 o w' added1 days2 added2 :
  valid_date d = true → date_le d T = true →
  add_one_day d = Return next →
  days_processed (stdout w1) = days_processed (stdout w) ++ [d] →
  price_rows (conn w1) = price_rows (conn w) ++ added1 →
  (∀ r, r ∈ added1 →
        row_date r = d ∧ ¬ exists_in_price (price_rows (conn w)) r) →
  db_log (conn w1) = db_log (conn w) →
  resumed next T w1 o w' days2 added2 →
  resumed d T w o w' (d :: days2) (added1 ++ added2).
Proof.
  intros Hv Hle Hnext Htrace Hrows Hadded Hlog
    (Htrace2 & Hrows2 & Hsorted & Hrange & Hclosed & Hend & Hadded2 & Hlog2).
  destruct (add_one_day_next d next Hv Hnext) as (Hvn & Hlt & _ & Hleast).
  unfold resumed. split_and!.
  - rewrite Htrace2, Htrace, <- app_assoc. done.
  - rewrite Hrows2, Hrows, <- app_assoc. done.
  - constructor; [done|]. apply Forall_forall. intros x Hx.
    destruct (Hrange x Hx) as (_ & Hnx & _).
    by eapply date_lt_le_trans.
  - intros x Hx. apply elem_of_cons in Hx as [->|Hx].
    + split_and!; [done|apply date_le_refl|done].
    + destruct (Hrange x Hx) as (Hvx & Hnx & HxT). split_and!; [done| |done].
      eapply date_le_trans; [|exact Hnx]. by apply date_lt_le.
  - intros x y Hvx Hy H1 H2.
    destruct (date_le_lt_or_eq d x H1) as [<-|Hdx]; [apply list_elem_of_here|].
    apply list_elem_of_further.
    apply elem_of_cons in Hy as [->|Hy].
    + pose proof (date_lt_le_trans _ _ _ Hdx H2) as Hdd.
      by rewrite date_lt_irrefl in Hdd.
    + apply (Hclosed x y); [done|done|by apply Hleast|done].
  - intros Ho x Hvx H1 H2.
    destruct (date_le_lt_or_eq d x H1) as [<-|Hdx]; [apply list_elem_of_here|].
    apply list_elem_of_further. apply Hend; [done|done|by apply Hleast|done].
  - intros r Hr. apply elem_of_app in Hr as [Hr|Hr].
    + destruct (Hadded r Hr) as [-> Hnew]. split; [apply list_elem_of_here|done].
    + destruct (Hadded2 r Hr) as [Hin Hnew].
      split; [by apply list_elem_of_further|].
      intros Hex. apply Hnew. unfold exists_in_price in *.
      rewrite Hrows, fmap_app. apply elem_of_app. by left.
  - by rewrite Hlog2.
Qed.

(** With enough fuel the loop ends, and this is what it has done. *)
Lemma day_loop_resumed E fuel d T w :
  valid_date d = true → valid_date T = true →
  (Z.to_nat (day_rank T - day_rank d + 1) < fuel)%nat →
  ∃ o w' days added,
    inc_load_price.day_loop E fuel d T w = Some (o, w')
    ∧ resumed d T w o w' days added.
Proof.
  revert d w. induction fuel as [|fuel IH]; intros d w Hv HT Hfuel; [lia|].
  simpl. destruct (date_le d T) eqn:Hle.
  2: { exists (Return tt), w, [], []. split; [done|]. by apply resumed_nothing. }
  destruct (inc_load_price.day_step E d w) as [[[]|e] w1] eqn:Hstep.
  - apply day_step_effect in Hstep
      as (Htrace & _ & Hlog & added1 & Hrows & Hadded & _).
    destruct (add_one_day d) as [next|e] eqn:Hnext.
    + destruct (add_one_day_next d next Hv Hnext) as (Hvn & _ & Hrank & _).
      pose proof (date_le_rank d T Hv HT Hle) as HrankT.
      destruct (IH next w1 Hvn HT ltac:(lia)) as (o & w' & days2 & added2 & Hrun & Hres).
      exists o, w', (d :: days2), (added1 ++ added2). split; [done|].
      by eapply resumed_step.
    + destruct (add_one_day_overflow d e Hv Hnext) as [-> Hmax].
      exists (Raise OverflowError), w1, [d], added1. split; [done|].
      apply resumed_last; done.
  - apply day_step_effect in Hstep
      as (Htrace & Hne & Hlog & added1 & Hrows & Hadded & _).
    exists (Raise e), w1, [d], added1. split; [done|].
    apply resumed_last; done.
Qed.

(* ===================================================================== *)
(** ** Incremental: the run                                               *)
(* ===================================================================== *)

Lemma get_last_processed_date_value w :
  (inc_load_price.get_last_processed_date w).1
  = Return (last_processed (db_log (conn w))).
Proof.
  destruct w as [[pr l] t c out].
  unfold inc_load_price.get_last_processed_date, try_except, bind,
    select_max_processed_date, create_log_if_not_exists, print, ret.
  simpl. destruct l as [| |entries]; simpl; try done.
Qed.

(** Up to the loop, [main] of the incremental loader prints, makes sure the
    [price] table is there and asks the ledger for the resume point. *)
Lemma inc_preamble w :
  ∃ w1,
    (print (Say "Setting up Drive service...") ;;;
     print (Say "Downloading existing DuckDB file...") ;;;
     create_price_if_not_exists true ;;;
     inc_load_price.get_last_processed_date) w
    = (Return (last_processed (db_log (conn w))), w1)
    ∧ conn w1 = prepared (conn w)
    ∧ temp_price w1 = temp_price w
    ∧ clock w1 = clock w
    ∧ days_processed (stdout w1) = days_processed (stdout w).
Proof.
  destruct w as [[pr l] t c out].
  unfold inc_load_price.get_last_processed_date, try_except, bind,
    select_max_processed_date, create_log_if_not_exists,
    create_price_if_not_exists, print, ret, prepared.
  simpl.
  destruct pr as [p|], l as [| |entries]; simpl;
    try destruct (max_processed_date entries);
    (eexists; split; [reflexivity|]; simpl;
     split_and!; [done|done|done|trace_solve]).
Qed.

Lemma inc_epilogue w :
  ∃ w1,
    (print (Say "Uploading updated DuckDB file...") ;;;
     print (Say "Cleaning up...") ;;;
     print (Say "Transaction data loaded successfully!")) w
    = (Return tt, w1)
    ∧ days_processed (stdout w1) = days_processed (stdout w)
    ∧ conn w1 = conn w.
Proof.
  eexists. split; [reflexivity|]. simpl. split; [trace_solve|done].
Qed.

(** C4 -- Resumability of incremental mode.  Let [get_last_processed_date]
    answer [D] on the downloaded database, let the current date be
    [T >= D], and let the month of [D] be published, with a snapshot in
    which an identity triple has one price.  Then the run does not get past
    [D]: the rows of [D] are inserted into the local [price] table, the
    read of [.row_count] raises [AttributeError] with the temporary table
    still there, no later day up to [T] is processed, the ledger gets no
    entry, and the database on Drive stays as it was. *)
Theorem incremental_run_stops_on_data (E : Env) (drive : database)
    (last_date : inc_load_price.date_or_datetime) (fuel : nat) (s : Z)
    (batch : list Row) :
  (inc_load_price.get_last_processed_date (fresh_world drive)).1
    = Return last_date →
  date_le (inc_load_price.to_date last_date) (today E) = true →
  http_get E 0 (pricecatcher_url (inc_load_price.to_date last_date))
    = Response s (Parquet batch) →
  status_ok s →
  single_priced batch →
  (0 < fuel)%nat →
  ∃ w',
    inc_load_price.main_try E fuel (fresh_world drive)
    = Some (Raise AttributeError, w')
    ∧ days_processed (stdout w') = [inc_load_price.to_date last_date]
    ∧ price_rows (conn w')
      = price_rows drive
        ++ new_records (Some (inc_load_price.to_date last_date)) batch
             (price_rows drive)
    ∧ temp_price w' = Some batch
    ∧ db_log (conn w') = db_log (prepared drive)
    ∧ inc_load_price.main E fuel drive
      = Some (Raise AttributeError, drive,
              stdout w' ++ [AnErrorOccurred AttributeError]).
Proof.
  intros Hlast Hle Hget Hs Hsp Hfuel.
  rewrite get_last_processed_date_value in Hlast. injection Hlast as Hlast.
  destruct (inc_preamble (fresh_world drive))
    as (w1 & Hpre & Hconn & Htemp & Hclock & Htrace).
  simpl in Hlast, Hpre, Hconn, Htemp, Hclock, Htrace.
  rewrite Hlast in Hpre.
  set (D := inc_load_price.to_date last_date) in *.
  set (p := default {| primary_key := true; rows := [] |} (db_price drive)).
  assert (db_price (conn w1) = Some p) as Hprice by (by rewrite Hconn).
  assert (rows p = price_rows drive) as Hrows.
  { unfold p, price_rows. by destruct (db_price drive). }
  rewrite <- Hclock in Hget.
  pose proof (day_step_on_data E D w1 s batch p Htemp Hprice Hget Hs Hsp)
    as Hstep.
  destruct fuel as [|fuel]; [lia|].
  assert (inc_load_price.main_try E (S fuel) (fresh_world drive)
          = Some (Raise AttributeError,
                  {| conn := set_price
                               (Some {| primary_key := primary_key p;
                                        rows := rows p
                                                ++ new_records (Some D) batch
                                                     (rows p) |})
                               (conn w1);
                     temp_price := Some batch;
                     clock := S (clock w1);
                     stdout := stdout w1
                               ++ [ProcessingDay D (pricecatcher_url D)] |}))
    as Hrun.
  { unfold inc_load_price.main_try. rewrite Hpre.
    cbn [inc_load_price.day_loop]. fold D. rewrite Hle, Hstep. reflexivity. }
  eexists. split; [exact Hrun|]. cbn [stdout conn temp_price].
  split_and!.
  - rewrite days_processed_app, Htrace. reflexivity.
  - unfold price_rows at 1. cbn. by rewrite Hrows.
  - reflexivity.
  - by rewrite Hconn.
  - unfold inc_load_price.main, with_drive.
    change {| conn := drive; temp_price := None; clock := 0%nat; stdout := [] |}
      with (fresh_world drive).
    rewrite Hrun. reflexivity.
Qed.

(** The scenario of the specification: no ledger yet, epoch default
    2022-01-01, current date 2022-01-03, the file of January published. *)
Lemma incremental_run_stops_on_data_witness :
  ∃ w',
    inc_load_price.main_try
      (serving [(pricecatcher_url (Date 2022 1 1), [row_P1; row_P1; row_P2])]
               (Date 2022 1 3))
      5 (fresh_world (mkDb None LogAbsent))
    = Some (Raise AttributeError, w')
    ∧ days_processed (stdout w') = [Date 2022 1 1]
    ∧ price_rows (conn w') = [row_P1; row_P2]
    ∧ db_log (conn w') = LogTable []
    ∧ inc_load_price.main
        (serving [(pricecatcher_url (Date 2022 1 1), [row_P1; row_P1; row_P2])]
                 (Date 2022 1 3))
        5 (mkDb None LogAbsent)
      = Some (Raise AttributeError, mkDb None LogAbsent,
              stdout w' ++ [AnErrorOccurred AttributeError]).
Proof.
  destruct (incremental_run_stops_on_data
              (serving [(pricecatcher_url (Date 2022 1 1), [row_P1; row_P1; row_P2])]
                       (Date 2022 1 3))
              (mkDb None LogAbsent)
              (inc_load_price.a_datetime (Date 2022 1 1)) 5 200
              [row_P1; row_P1; row_P2]
              eq_refl eq_refl
              ltac:(vm_compute; reflexivity)
              ltac:(left; lia)
              ltac:(intros r r' Hr Hr' Hid;
                    repeat (apply elem_of_cons in Hr as [->|Hr]);
                    repeat (apply elem_of_cons in Hr' as [->|Hr']);
                    try (by apply elem_of_nil in Hr);
                    try (by apply elem_of_nil in Hr');
                    first [reflexivity | discriminate Hid])
              ltac:(lia))
    as (w' & Hrun & Hdays & Hrows & _ & Hlog & Hmain).
  exists w'. split_and!; [exact Hrun|exact Hdays|exact Hrows|exact Hlog|exact Hmain].
Defined.

(* ===================================================================== *)
(** ** The identity key across the three scripts                          *)
(* ===================================================================== *)

(** On a [price] table with its primary key, the dedup insert of the bulk
    and incremental loaders keeps the stored identities unique. *)
Lemma insert_new_records_keeps_key target w p n w' :
  db_price (conn w) = Some p → primary_key p = true →
  NoDup (identity <$> price_rows (conn w)) →
  insert_new_records target w = (Return n, w') →
  NoDup (identity <$> price_rows (conn w'))
  ∧ ∃ p', db_price (conn w') = Some p' ∧ primary_key p' = true.
Proof.
  intros Hprice Hpk Hnd Hrun.
  destruct w as [[pr l] t c out]. unfold insert_new_records, price_rows in *.
  simpl in *. subst pr. destruct t as [temp|]; [|done].
  destruct (insert_into_price (new_records target temp (rows p)) p)
    as [p'|e] eqn:Hins; [|done].
  apply insert_into_price_Return in Hins as [-> Hkey].
  simplify_eq. simpl. split; [|by eexists].
  apply key_check_NoDup; [done|by apply Hkey].
Qed.

(** C2 -- No duplicate identities, at the input where the code breaks it.
    [load_transactions.py] creates [price] without the primary key that
    [bulk_load_price.py] and [inc_load_price.py] declare, and inserts the
    whole snapshot without their [NOT EXISTS] test.  Run twice on a database
    without tables, while the 2022-02 snapshot holds the single row
    (2022-02-01, P1, I1, 1.20), it stores that row twice: two rows of
    [price] share an identity triple. *)
Theorem load_transactions_duplicates :
  ∃ out1 out2,
    load_transactions.main
      (serving [(load_transactions.TRANSACTION_URL, [row_Feb])] (Date 2022 3 1))
      (mkDb None LogAbsent)
    = Some (Return tt, mkDb (Some (mkPrice false [row_Feb])) LogAbsent, out1)
    ∧ load_transactions.main
        (serving [(load_transactions.TRANSACTION_URL, [row_Feb])] (Date 2022 3 1))
        (mkDb (Some (mkPrice false [row_Feb])) LogAbsent)
      = Some (Return tt,
              mkDb (Some (mkPrice false [row_Feb; row_Feb])) LogAbsent, out2)
    ∧ ¬ NoDup (identity <$> [row_Feb; row_Feb]).
Proof.
  eexists _, _. split_and!.
  - vm_compute. reflexivity.
  - vm_compute. reflexivity.
  - intros Hnd. apply NoDup_cons in Hnd as [Hin _].
    apply Hin. apply list_elem_of_here.
Qed.

(* ===================================================================== *)
(** ** Fetching a snapshot                                                *)
(* ===================================================================== *)

(** X1 -- [download_parquet] of the two loaders, by what the server says:
    no response is a [ConnectionError]; status 404 prints one line and gives
    [None]; any other status from 400 to 599 is raised again as the
    [HTTPError] it is, with nothing printed; any other status hands the
    content on.  In every case exactly one request was made. *)
Theorem download_parquet_outcomes (E : Env) (url : string) (w : world) :
  inc_load_price.download_parquet E url w
  = bulk_load_price.download_parquet E url w
  ∧ bulk_load_price.download_parquet E url w
    = match http_get E (clock w) url with
      | NoResponse => (Raise ConnectionError, advance w)
      | Response s c =>
          if s =? 404 then
            (Return None, with_output [FileNotFound url] (advance w))
          else if (400 <=? s) && (s <? 600) then
            (Raise (HTTPError s), advance w)
          else (Return (Some c), advance w)
      end.
Proof.
  split; [reflexivity|].
  unfold bulk_load_price.download_parquet, try_except, requests_get,
    raise_for_status, bind, tick. simpl.
  destruct (http_get E (clock w) url) as [s c|]; [|reflexivity]. simpl.
  destruct (Z.eqb_spec s 404) as [->|Hne]; [reflexivity|].
  destruct ((400 <=? s) && (s <? 600)); simpl; [|reflexivity].
  destruct (Z.eqb_spec s 404); [done|reflexivity].
Qed.

(** What [download_parquet] of [load_transactions.py] does with an error
    status, 404 included: it raises. *)
Lemma load_transactions_download_error E url w s c :
  http_get E (clock w) url = Response s c → 400 ≤ s < 600 →
  load_transactions.download_parquet E url w = (Raise (HTTPError s), advance w).
Proof.
  intros Hget Hs.
  unfold load_transactions.download_parquet, requests_get, raise_for_status,
    bind, tick. simpl. rewrite Hget. simpl.
  assert ((400 <=? s) && (s <? 600) = true) as ->
    by (apply andb_true_iff; lia).
  reflexivity.
Qed.

Lemma load_transactions_download_found E url w s c :
  http_get E (clock w) url = Response s c → status_ok s →
  load_transactions.download_parquet E url w = (Return c, advance w).
Proof.
  intros Hget Hs.
  unfold load_transactions.download_parquet, requests_get, raise_for_status,
    bind, tick. simpl. rewrite Hget. simpl.
  rewrite (status_ok_passes s Hs). reflexivity.
Qed.

(** X2 -- [load_transactions.py] has no tolerance for a missing snapshot:
    when the fetch answers a status from 400 to 599 (a 404 among them), the
    run ends in that [HTTPError] and the database on Drive is what it was. *)
Theorem load_transactions_fetch_error_aborts (E : Env) (drive : database)
    (s : Z) (c : file_content) :
  http_get E 0 load_transactions.TRANSACTION_URL = Response s c →
  400 ≤ s < 600 →
  ∃ out, load_transactions.main E drive = Some (Raise (HTTPError s), drive, out)
         ∧ AnErrorOccurred (HTTPError s) ∈ out.
Proof.
  intros Hget Hs.
  unfold load_transactions.main, with_drive, load_transactions.main_try.
  erewrite bind_Return by reflexivity.
  erewrite bind_Return by reflexivity.
  erewrite bind_Return by reflexivity.
  erewrite bind_Raise
    by (eapply load_transactions_download_error; [exact Hget|exact Hs]).
  eexists. split; [reflexivity|].
  apply elem_of_app. right. apply list_elem_of_here.
Qed.

Lemma load_transactions_fetch_error_aborts_witness :
  ∃ out, load_transactions.main (serving [] (Date 2022 3 1))
           (mkDb (Some (mkPrice false [row_Feb])) LogAbsent)
         = Some (Raise (HTTPError 404),
                 mkDb (Some (mkPrice false [row_Feb])) LogAbsent, out)
         ∧ AnErrorOccurred (HTTPError 404) ∈ out.
Proof.
  exact (load_transactions_fetch_error_aborts (serving [] (Date 2022 3 1))
           (mkDb (Some (mkPrice false [row_Feb])) LogAbsent) 404 NotParquet
           eq_refl ltac:(lia)).
Defined.

(* ===================================================================== *)
(** ** load_transactions.py: the one-off load                             *)
(* ===================================================================== *)

Lemma load_transactions_run E drive s batch :
  http_get E 0 load_transactions.TRANSACTION_URL = Response s (Parquet batch) →
  status_ok s →
  ∃ out out',
    load_transactions.main E drive
    = Some (match insert_into_price batch
                    (default {| primary_key := false; rows := [] |}
                             (db_price drive)) with
            | Return p' => (Return tt, set_price (Some p') drive, out)
            | Raise e => (Raise e, drive, out')
            end).
Proof.
  intros Hget Hs.
  unfold load_transactions.main, with_drive, load_transactions.main_try.
  erewrite bind_Return by reflexivity.
  erewrite bind_Return by reflexivity.
  erewrite bind_Return by reflexivity.
  erewrite bind_Return
    by (eapply load_transactions_download_found; [exact Hget|exact Hs]).
  erewrite bind_Return by reflexivity.
  destruct drive as [[p|] l]; simpl.
  - unfold bind, create_price_if_not_exists, insert_all_from_parquet. simpl.
    destruct (insert_into_price batch p) as [p'|e]; simpl;
      [eexists _, []|eexists [], _]; reflexivity.
  - unfold bind, create_price_if_not_exists, insert_all_from_parquet. simpl.
    destruct (insert_into_price batch {| primary_key := false; rows := [] |})
      as [p'|e] eqn:Hins; simpl.
    + eexists _, []; reflexivity.
    + apply insert_into_price_Raise in Hins as (_ & Hpk & _). done.
Qed.

(** X3 -- [load_transactions.py] on a database whose [price] table is absent
    or was created without the key: the run succeeds, the table is (still)
    without the key, it holds the rows it had followed by every row of the
    snapshot in file order, repeated rows and stored rows included, and the
    ledger is untouched. *)
Theorem load_transactions_appends_everything (E : Env) (drive : database)
    (s : Z) (batch : list Row) :
  http_get E 0 load_transactions.TRANSACTION_URL = Response s (Parquet batch) →
  status_ok s →
  match db_price drive with
  | Some p => primary_key p = false
  | None => True
  end →
  ∃ out,
    load_transactions.main E drive
    = Some (Return tt,
            {| db_price := Some {| primary_key := false;
                                   rows := price_rows drive ++ batch |};
               db_log := db_log drive |},
            out).
Proof.
  intros Hget Hs Hkey.
  destruct (load_transactions_run E drive s batch Hget Hs) as (out & out' & Hrun).
  exists out. rewrite Hrun. unfold price_rows, insert_into_price.
  destruct drive as [[[pk rs]|] l]; simpl in *.
  - subst pk. reflexivity.
  - reflexivity.
Qed.

Lemma load_transactions_appends_everything_witness :
  ∃ out,
    load_transactions.main
      (serving [(load_transactions.TRANSACTION_URL, [row_Feb; row_Feb])]
               (Date 2022 3 1))
      (mkDb (Some (mkPrice false [row_Feb])) LogAbsent)
    = Some (Return tt,
            mkDb (Some (mkPrice false [row_Feb; row_Feb; row_Feb])) LogAbsent,
            out).
Proof.
  exact (load_transactions_appends_everything
           (serving [(load_transactions.TRANSACTION_URL, [row_Feb; row_Feb])]
                    (Date 2022 3 1))
           (mkDb (Some (mkPrice false [row_Feb])) LogAbsent) 200
           [row_Feb; row_Feb] eq_refl ltac:(left; lia) eq_refl).
Defined.

(** X4 -- [load_transactions.py] on a [price] table that has the primary
    key (one that a loader created): when the snapshot repeats an identity
    or brings one that is stored, the insert is refused as a whole, the run
    ends in a constraint error and the database on Drive is what it was. *)
Theorem load_transactions_refused_by_key (E : Env) (drive : database)
    (p : price_table) (s : Z) (batch : list Row) :
  http_get E 0 load_transactions.TRANSACTION_URL = Response s (Parquet batch) →
  status_ok s →
  db_price drive = Some p →
  primary_key p = true →
  ¬ (NoDup (identity <$> batch)
     ∧ ∀ r, r ∈ batch → identity r ∉ identity <$> rows p) →
  ∃ out,
    load_transactions.main E drive
    = Some (Raise ConstraintException, drive, out).
Proof.
  intros Hget Hs Hprice Hpk Hbad.
  destruct (load_transactions_run E drive s batch Hget Hs) as (out & out' & Hrun).
  rewrite Hrun, Hprice. simpl.
  unfold insert_into_price. rewrite Hpk.
  rewrite decide_False; [by eexists|].
  intros [Hnd Hfresh]. apply Hbad. split; [done|].
  intros r Hr. rewrite Forall_forall in Hfresh. by apply (Hfresh r).
Qed.

Lemma load_transactions_refused_by_key_witness :
  ∃ out,
    load_transactions.main
      (serving [(load_transactions.TRANSACTION_URL, [row_Feb])] (Date 2022 3 1))
      (mkDb (Some (mkPrice true [row_Feb])) (LogTable []))
    = Some (Raise ConstraintException,
            mkDb (Some (mkPrice true [row_Feb])) (LogTable []), out).
Proof.
  refine (load_transactions_refused_by_key
            (serving [(load_transactions.TRANSACTION_URL, [row_Feb])] (Date 2022 3 1))
            (mkDb (Some (mkPrice true [row_Feb])) (LogTable []))
            (mkPrice true [row_Feb]) 200 [row_Feb]
            eq_refl ltac:(left; lia) eq_refl eq_refl _).
  intros [_ Hfresh]. apply (Hfresh row_Feb); apply list_elem_of_here.
Defined.

(* ===================================================================== *)
(** ** Backfill: the edges of the month range                             *)
(* ===================================================================== *)

(** X6 -- An end date in a month before the month of the start date gives
    no period at all: [generate_month_urls] returns the empty list (and the
    day of the start date plays no part). *)
Theorem generate_month_urls_empty_range (start_date end_date : date)
    (fuel : nat) :
  valid_date start_date = true →
  valid_date end_date = true →
  month_index end_date < month_index start_date →
  (0 < fuel)%nat →
  bulk_load_price.generate_month_urls fuel start_date end_date
  = Some (Return []).
Proof.
  intros Hs He Hlt Hfuel.
  unfold bulk_load_price.generate_month_urls.
  pose proof Hs as Hs'. apply valid_date_spec in Hs'.
  rewrite replace_day_1_month_start by lia.
  rewrite generate_month_urls_loop_spec; [|done| |lia].
  - rewrite seqZ_nil by lia. reflexivity.
  - unfold month_index in *. lia.
Qed.

Lemma generate_month_urls_empty_range_witness :
  bulk_load_price.generate_month_urls 1 (Date 2022 1 1) (Date 2021 12 31)
  = Some (Return []).
Proof.
  exact (generate_month_urls_empty_range (Date 2022 1 1) (Date 2021 12 31) 1
           eq_refl eq_refl ltac:(vm_compute; reflexivity) ltac:(lia)).
Defined.

Lemma generate_month_urls_loop_last_month fuel i end_date urls :
  valid_date end_date = true →
  month_index end_date = 9999 * 12 + 11 →
  i ≤ 9999 * 12 + 11 →
  (Z.to_nat (9999 * 12 + 11 - i + 1) < fuel)%nat →
  bulk_load_price.generate_month_urls_loop fuel (month_start i) end_date urls
  = Some (Raise ValueError).
Proof.
  intros He Hlast. revert i urls.
  induction fuel as [|fuel IH]; intros i urls Hi Hfuel; [lia|].
  simpl.
  assert (date_le (month_start i) end_date = true) as ->
    by (apply date_le_month_start; [done|lia]).
  rewrite add_one_month_month_start.
  destruct (Z.leb_spec ((i + 1) / 12) MAXYEAR) as [Hle|Hgt].
  - unfold MAXYEAR in Hle. apply IH.
    + Z.div_mod_to_equations. lia.
    + lia.
  - reflexivity.
Qed.

(** X7 -- For every end date in December 9999, whatever the start date
    before it, [generate_month_urls] raises [ValueError] (the month after
    the last one is not a date) and so returns no period. *)
Theorem generate_month_urls_last_month_raises (start_date end_date : date)
    (fuel : nat) :
  valid_date start_date = true →
  valid_date end_date = true →
  date_le start_date end_date = true →
  year end_date = 9999 → month end_date = 12 →
  (Z.to_nat (month_index end_date - month_index start_date + 1) < fuel)%nat →
  bulk_load_price.generate_month_urls fuel start_date end_date
  = Some (Raise ValueError).
Proof.
  intros Hs He Hle Hy Hm Hfuel.
  unfold bulk_load_price.generate_month_urls.
  pose proof Hs as Hs'. apply valid_date_spec in Hs'.
  rewrite replace_day_1_month_start by lia.
  assert (month_index end_date = 9999 * 12 + 11) as Hlast
    by (unfold month_index; lia).
  apply generate_month_urls_loop_last_month; [done|done| |].
  - unfold month_index. lia.
  - rewrite Hlast in Hfuel. exact Hfuel.
Qed.

Lemma generate_month_urls_last_month_raises_witness :
  bulk_load_price.generate_month_urls 4 (Date 9999 10 20) (Date 9999 12 1)
  = Some (Raise ValueError).
Proof.
  exact (generate_month_urls_last_month_raises (Date 9999 10 20) (Date 9999 12 1) 4
           eq_refl eq_refl eq_refl eq_refl eq_refl ltac:(vm_compute; lia)).
Defined.

(* ===================================================================== *)
(** ** How the tables change along a run                                  *)
(* ===================================================================== *)

Lemma price_step_refl p : price_step p p [].
Proof.
  destruct p as [[pk rs]|]; simpl; [|done].
  rewrite app_nil_r. split_and!; [done| |constructor].
  intros _. apply key_check_nil.
Qed.

Lemma key_check_app stored new1 new2 :
  key_check stored new1 → key_check (stored ++ new1) new2 →
  key_check stored (new1 ++ new2).
Proof.
  intros [Hnd1 Hf1] [Hnd2 Hf2]. unfold exists_in_price in *.
  rewrite Forall_forall in Hf1, Hf2. split.
  - rewrite fmap_app. apply NoDup_app. split_and!; [done| |done].
    intros k Hk Hk'. apply list_elem_of_fmap in Hk' as (r & -> & Hr).
    apply (Hf2 r Hr). rewrite fmap_app. apply elem_of_app. by right.
  - apply Forall_forall. intros r Hr. apply elem_of_app in Hr as [Hr|Hr].
    + by apply Hf1.
    + intros Hin. apply (Hf2 r Hr). rewrite fmap_app. apply elem_of_app.
      by left.
Qed.

Lemma price_step_trans a b c added1 added2 :
  price_step a b added1 → price_step b c added2 →
  price_step a c (added1 ++ added2).
Proof.
  destruct a as [p|]; simpl.
  - intros (-> & Hk1 & Hf1). simpl. intros (-> & Hk2 & Hf2).
    rewrite <- app_assoc. split_and!; [done| |].
    + intros Hpk. apply key_check_app; [by apply Hk1|by apply Hk2].
    + apply Forall_app. split; [done|].
      eapply Forall_impl; [exact Hf2|]. intros r Hr Hin. apply Hr.
      unfold exists_in_price in *. rewrite fmap_app. apply elem_of_app.
      by left.
  - intros [-> ->]. simpl. intros [-> ->]. done.
Qed.

(** The rows of [price] are kept, in place, and what is added is new. *)
Lemma price_step_rows (db db' : database) added :
  price_step (db_price db) (db_price db') added →
  price_rows db' = price_rows db ++ added
  ∧ ∀ r, r ∈ added → identity r ∉ identity <$> price_rows db.
Proof.
  unfold price_rows. destruct (db_price db) as [p|]; simpl.
  - intros (-> & _ & Hf). split; [done|]. by apply Forall_forall.
  - intros [-> ->]. split; [done|]. intros r Hr. by apply elem_of_nil in Hr.
Qed.

(** A keyed table without repeated identities stays one. *)
Lemma price_step_key before after added :
  price_step before after added →
  match before with
  | Some p => primary_key p = true ∧ NoDup (identity <$> rows p)
  | None => True
  end →
  match after with
  | Some p => primary_key p = true ∧ NoDup (identity <$> rows p)
  | None => True
  end.
Proof.
  destruct before as [p|]; simpl.
  - intros (-> & Hk & _) [Hpk Hnd]. simpl. split; [done|].
    apply key_check_NoDup; [done|by apply Hk].
  - intros [-> _] _. done.
Qed.

Lemma price_step_nil before after : price_step before after [] → after = before.
Proof.
  destruct before as [[pk rs]|]; simpl.
  - intros (-> & _). simpl. by rewrite app_nil_r.
  - by intros [-> _].
Qed.

(** The rows the dedup insert takes pass as a step of [price]. *)
Lemma insert_new_records_price_step target batch p p' :
  insert_into_price (new_records target batch (rows p)) p = Return p' →
  price_step (Some p) (Some p') (new_records target batch (rows p)).
Proof.
  intros Hins. apply insert_into_price_Return in Hins as [-> Hkey].
  simpl. split_and!; [done|done|].
  apply Forall_forall. intros r Hr.
  by apply elem_of_new_records in Hr as (_ & _ & Hnew).
Qed.

(* ===================================================================== *)
(** ** Backfill: the run                                                  *)
(* ===================================================================== *)

Arguments price_step : simpl never.

Lemma months_processed_app out out' :
  months_processed (out ++ out')
  = months_processed out ++ months_processed out'.
Proof. apply omap_app. Qed.

Ltac months_solve :=
  repeat rewrite months_processed_app; simpl; rewrite ?app_nil_r;
  try reflexivity.

(** What one call of the bulk [process_monthly_file] does, whatever the
    server answers. *)
Lemma bulk_process_monthly_file_effect E ym url w o w' :
  bulk_load_price.process_monthly_file E ym url w = (o, w') →
  months_processed (stdout w') = months_processed (stdout w) ++ [ym]
  ∧ db_log (conn w') = db_log (conn w)
  ∧ ∃ added,
      price_step (db_price (conn w)) (db_price (conn w')) added
      ∧ match o with
        | Return (Some r) =>
            bulk_load_price.result_records_loaded r = -1
            ∧ temp_price w = None ∧ temp_price w' = None
            ∧ ∃ batch,
                bulk_load_price.result_dates r = distinct_dates batch
                ∧ added = new_records None batch (price_rows (conn w))
        | Return None => added = [] ∧ temp_price w' = temp_price w
        | Raise e => added = []
        end.
Proof.
  intros H. destruct w as [[pr l] t c out].
  unfold bulk_load_price.process_monthly_file,
    bulk_load_price.download_parquet,
    try_except, requests_get, raise_for_status, create_temp_price,
    insert_new_records, select_distinct_dates, drop_temp_price,
    result_rowcount, bind, print, tick, ret, raise in H.
  unfold price_rows. simpl in *.
  assert (∀ o0 w0, (o0, w0) = (o, w') → o0 = o ∧ w0 = w') as Hinv
    by (by intros ?? [= -> ->]).
  destruct (http_get E c url) as [s content|]; simpl in H.
  2: { apply Hinv in H as [<- <-]. simpl. split; [months_solve|].
       split; [done|]. exists []. split; [apply price_step_refl|done]. }
  destruct ((400 <=? s) && (s <? 600)); simpl in H.
  { destruct (s =? 404); simpl in H; apply Hinv in H as [<- <-]; simpl.
    all: split; [months_solve|]; split; [done|].
    all: exists []; split; [apply price_step_refl|done]. }
  destruct content as [batch|]; simpl in H.
  2: { apply Hinv in H as [<- <-]. simpl. split; [months_solve|].
       split; [done|]. exists []. split; [apply price_step_refl|done]. }
  destruct t as [temp|]; simpl in H.
  { apply Hinv in H as [<- <-]. simpl. split; [months_solve|].
    split; [done|]. exists []. split; [apply price_step_refl|done]. }
  destruct pr as [p|]; simpl in H.
  2: { apply Hinv in H as [<- <-]. simpl. split; [months_solve|].
       split; [done|]. exists []. split; [apply price_step_refl|done]. }
  destruct (insert_into_price (new_records None batch (rows p)) p)
    as [p'|e] eqn:Hins; simpl in H.
  - apply Hinv in H as [<- <-]. simpl. split; [months_solve|]. split; [done|].
    exists (new_records None batch (rows p)).
    split; [by apply insert_new_records_price_step|].
    split_and!; try done. by exists batch.
  - apply Hinv in H as [<- <-]. simpl. split; [months_solve|]. split; [done|].
    exists []. split; [apply price_step_refl|done].
Qed.

(** What one pass of [for month_data in monthly_urls] does: a pass that
    returns has added nothing, and no pass touches the ledger. *)
Lemma month_step_effect E md total w o w' :
  bulk_load_price.month_step E md total w = (o, w') →
  months_processed (stdout w')
  = months_processed (stdout w) ++ [bulk_load_price.year_month md]
  ∧ db_log (conn w') = db_log (conn w)
  ∧ ∃ added,
      price_step (db_price (conn w)) (db_price (conn w')) added
      ∧ match o with
        | Return total' =>
            total' = total ∧ added = [] ∧ temp_price w' = temp_price w
        | Raise _ => True
        end.
Proof.
  unfold bulk_load_price.month_step, bind. intros H.
  destruct (bulk_load_price.process_monthly_file E
              (bulk_load_price.year_month md) (bulk_load_price.url md) w)
    as [[[r|]|e] w1] eqn:Hproc;
    apply bulk_process_monthly_file_effect in Hproc
      as (Htrace & Hlog & added & Hprice & Ho).
  - destruct Ho as (Hn & Ht & Ht1 & batch & Hdates & Hadded).
    destruct (bulk_load_price.result_dates r) as [|d0 dates] eqn:Hd.
    + unfold ret in H. simplify_eq.
      split; [done|]. split; [done|].
      exists (new_records None batch (price_rows (conn w))).
      split; [done|]. split; [done|]. split; [|congruence].
      symmetry in Hdates. apply distinct_dates_nil in Hdates. by subst batch.
    + destruct (for_each (d0 :: dates)
                  (λ processed_date,
                     recordProgress processed_date (bulk_load_price.url md)
                       (bulk_load_price.result_records_loaded r)) w1)
        as [[[]|e] w2] eqn:Hfor;
        apply for_each_recordProgress_effect in Hfor as [-> Ho];
        [done|].
      unfold ret in H. simplify_eq.
      split; [done|]. split; [done|]. eexists. split; [exact Hprice|done].
  - destruct Ho as [-> Ht]. unfold ret in H. simplify_eq.
    split; [done|]. split; [done|]. by exists [].
  - simplify_eq. split; [done|]. split; [done|].
    eexists. split; [exact Hprice|done].
Qed.

(** What the whole [for] loop does: it goes through the months in order
    and stops at the first step that raises. *)
Lemma month_loop_effect E urls total w o w' :
  bulk_load_price.month_loop E urls total w = (o, w') →
  ∃ k added,
    months_processed (stdout w')
    = months_processed (stdout w) ++ (bulk_load_price.year_month <$> take k urls)
    ∧ db_log (conn w') = db_log (conn w)
    ∧ price_step (db_price (conn w)) (db_price (conn w')) added
    ∧ match o with
      | Return total' =>
          k = length urls ∧ total' = total ∧ added = []
          ∧ temp_price w' = temp_price w
      | Raise _ => True
      end.
Proof.
  revert total w. induction urls as [|md urls IH]; intros total w H.
  - simpl in H. unfold ret in H. simplify_eq.
    exists 0%nat, []. rewrite app_nil_r.
    split_and!; [done|done|apply price_step_refl|done..].
  - simpl in H. unfold bind in H.
    destruct (bulk_load_price.month_step E md total w) as [[total1|e] w1] eqn:Hstep;
      apply month_step_effect in Hstep as (Htr & Hls & added1 & Hps & Ho).
    + destruct Ho as (-> & -> & Ht).
      apply IH in H as (k & added2 & Htr2 & Hls2 & Hps2 & Ho2).
      exists (S k), ([] ++ added2). split_and!.
      * rewrite Htr2, Htr, <- app_assoc. done.
      * congruence.
      * by eapply price_step_trans.
      * destruct o as [total'|e]; [|done].
        destruct Ho2 as (-> & -> & -> & Ht2). split_and!; [done..|congruence].
    + simplify_eq. exists 1%nat, added1. split_and!; try done.
Qed.

Lemma bulk_preamble w :
  (print (Say "Setting up Drive service...") ;;;
   print (Say "Downloading existing DuckDB file...") ;;;
   create_price_if_not_exists true ;;;
   create_log_if_not_exists) w
  = (Return tt,
     {| conn := prepared (conn w);
        temp_price := temp_price w;
        clock := clock w;
        stdout := (stdout w ++ [Say "Setting up Drive service..."])
                  ++ [Say "Downloading existing DuckDB file..."] |}).
Proof.
  destruct w as [[pr l] t c out].
  unfold bind, print, create_price_if_not_exists, create_log_if_not_exists,
    prepared. simpl.
  destruct pr as [p|], l as [| |entries]; reflexivity.
Qed.

Lemma prepared_price_rows db : price_rows (prepared db) = price_rows db.
Proof. unfold price_rows, prepared. simpl. by destruct (db_price db). Qed.

Lemma prepared_keys_hold db : keys_hold db → keys_hold (prepared db).
Proof.
  unfold keys_hold, prepared. simpl. intros [Hp Hl]. split.
  - destruct (db_price db); simpl; [done|]. split; [done|]. constructor.
  - destruct (db_log db); simpl; [constructor|done|done].
Qed.

(** With enough fuel [generate_month_urls] ends, for any current date: in
    the list of the months up to it, or in [ValueError] in December 9999. *)
Lemma generate_month_urls_total fuel start_date end_date :
  valid_date start_date = true → valid_date end_date = true →
  (Z.to_nat (month_index end_date - month_index start_date + 1) < fuel)%nat →
  bulk_load_price.generate_month_urls fuel start_date end_date
  = Some (Return ((month_entry ∘ month_start)
                  <$> seqZ (month_index start_date)
                           (month_index end_date - month_index start_date + 1)))
  ∨ bulk_load_price.generate_month_urls fuel start_date end_date
    = Some (Raise ValueError).
Proof.
  intros Hs He Hfuel.
  pose proof Hs as Hs'. apply valid_date_spec in Hs'.
  pose proof He as He'. apply valid_date_spec in He'.
  unfold bulk_load_price.generate_month_urls.
  rewrite replace_day_1_month_start by lia.
  destruct (decide (month_index end_date < 9999 * 12 + 11)) as [Hlt|Hge].
  - left. by apply generate_month_urls_loop_spec.
  - assert (month_index end_date = 9999 * 12 + 11) as Hlast
      by (unfold month_index in *; lia).
    right. apply generate_month_urls_loop_last_month; [done|done| |].
    + unfold month_index. lia.
    + rewrite Hlast in Hfuel. exact Hfuel.
Qed.

Lemma elem_of_with_last {A} (l : list A) x : x ∈ l ++ [x].
Proof. apply elem_of_app. right. apply list_elem_of_here. Qed.

(** The run of the bulk loader, from the download to the upload: all a run
    that returns has done to the database is its two [CREATE TABLE]. *)
Lemma bulk_main_run E fuel drive :
  valid_date (today E) = true →
  (Z.to_nat (month_index (today E)
             - month_index bulk_load_price.START_DATE + 1) < fuel)%nat →
  ∃ o db out,
    bulk_load_price.main E fuel drive = Some (o, db, out)
    ∧ match o with
      | Raise e => db = drive ∧ AnErrorOccurred e ∈ out
      | Return _ =>
          db = prepared drive
          ∧ months_processed out
            = (strftime_Y_m ∘ month_start)
              <$> seqZ (month_index bulk_load_price.START_DATE)
                       (month_index (today E)
                        - month_index bulk_load_price.START_DATE + 1)
          ∧ TotalRecords 0 ∈ out
      end.
Proof.
  intros HT Hfuel.
  unfold bulk_load_price.main, with_drive, bulk_load_price.main_try.
  rewrite bulk_preamble. cbv beta iota. cbn [conn temp_price clock stdout].
  destruct (generate_month_urls_total fuel bulk_load_price.START_DATE (today E)
              eq_refl HT Hfuel) as [-> | ->].
  2: { eexists _, _, _. split; [reflexivity|]. split; [done|].
       apply elem_of_with_last. }
  set (urls := (month_entry ∘ month_start)
               <$> seqZ (month_index bulk_load_price.START_DATE)
                        (month_index (today E)
                         - month_index bulk_load_price.START_DATE + 1)).
  set (w1 := {| conn := prepared drive; temp_price := None; clock := 0%nat;
                stdout := ([] ++ [Say "Setting up Drive service..."])
                          ++ [Say "Downloading existing DuckDB file..."] |}).
  unfold bind at 1.
  destruct (bulk_load_price.month_loop E urls 0 w1) as [[total|e] w2] eqn:Hloop;
    apply month_loop_effect in Hloop as (k & added & Htr & Hls & Hps & Ho).
  - destruct Ho as (-> & -> & -> & _). rewrite firstn_all in Htr.
    apply price_step_nil in Hps.
    eexists _, _, _. split; [reflexivity|]. simpl.
    split_and!.
    + destruct (conn w2) as [pr2 l2]. simpl in Hls, Hps. by subst.
    + months_solve. rewrite Htr. simpl. unfold urls.
      rewrite <- list_fmap_compose. done.
    + apply elem_of_app. left. apply elem_of_app. left. apply elem_of_app.
      left. apply elem_of_with_last.
  - eexists _, _, _. split; [reflexivity|]. split; [done|].
    apply elem_of_with_last.
Qed.

Lemma prepared_log_entries db : log_entries (prepared db) = log_entries db.
Proof. unfold log_entries, prepared. simpl. by destruct (db_log db). Qed.

(** X8 -- A backfill run, for any server and any database file.  With
    enough fuel it ends, and it never adds a row to the database on Drive,
    nor an entry to its ledger.  When it raised, the database on Drive is
    what it was (nothing is uploaded).  When it returned, what is uploaded
    is the downloaded file with the two tables made sure of ([price] and
    the ledger, empty where they were missing), and the printed total
    is 0. *)
Theorem bulk_main_adds_no_rows (E : Env) (fuel : nat) (drive : database) :
  valid_date (today E) = true →
  (Z.to_nat (month_index (today E)
             - month_index bulk_load_price.START_DATE + 1) < fuel)%nat →
  ∃ o db out,
    bulk_load_price.main E fuel drive = Some (o, db, out)
    ∧ price_rows db = price_rows drive
    ∧ log_entries db = log_entries drive
    ∧ match o with
      | Raise e => db = drive
      | Return _ => db = prepared drive ∧ TotalRecords 0 ∈ out
      end.
Proof.
  intros HT Hfuel.
  destruct (bulk_main_run E fuel drive HT Hfuel) as (o & db & out & Hrun & Ho).
  exists o, db, out. split; [done|].
  destruct o as [[]|e].
  - destruct Ho as (-> & _ & Htotal).
    rewrite prepared_price_rows, prepared_log_entries. done.
  - by destruct Ho as [-> _].
Qed.

(** January 2022 is published and its rows are new: the run raises on the
    first upsert and Drive keeps its one row. *)
Lemma bulk_main_adds_no_rows_witness :
  ∃ out,
    bulk_load_price.main
      (serving [(pricecatcher_url (Date 2022 1 1), [row_P1; row_P1; row_P2])]
               (Date 2022 2 15))
      3 (mkDb (Some (mkPrice true [row_P1])) (LogTable []))
    = Some (Raise BinderException,
            mkDb (Some (mkPrice true [row_P1])) (LogTable []), out).
Proof.
  destruct (bulk_main_adds_no_rows
              (serving [(pricecatcher_url (Date 2022 1 1), [row_P1; row_P1; row_P2])]
                       (Date 2022 2 15))
              3 (mkDb (Some (mkPrice true [row_P1])) (LogTable []))
              eq_refl ltac:(vm_compute; lia))
    as (o & db & out & Hrun & _).
  pose proof Hrun as Hval. vm_compute in Hval. injection Hval as Ho Hdb Hout.
  subst o db. exists out. exact Hrun.
Defined.

(** X9 -- A backfill run keeps the keys.  If on the downloaded file [price]
    (when there) has its primary key and no identity twice, and the ledger
    (when readable) has no date twice, the same holds of the file after the
    run; and a run that returned leaves both tables in place. *)
Theorem bulk_main_keeps_keys (E : Env) (fuel : nat) (drive : database) :
  valid_date (today E) = true →
  (Z.to_nat (month_index (today E)
             - month_index bulk_load_price.START_DATE + 1) < fuel)%nat →
  keys_hold drive →
  ∃ o db out,
    bulk_load_price.main E fuel drive = Some (o, db, out)
    ∧ keys_hold db
    ∧ match o with
      | Return _ => is_Some (db_price db) ∧ db_log db ≠ LogAbsent
      | Raise _ => True
      end.
Proof.
  intros HT Hfuel Hkeys.
  destruct (bulk_main_run E fuel drive HT Hfuel) as (o & db & out & Hrun & Ho).
  exists o, db, out. split; [done|].
  destruct o as [[]|e]; [|destruct Ho as [-> _]; done].
  destruct Ho as (-> & _).
  split; [by apply prepared_keys_hold|].
  unfold prepared. simpl. split; [by eexists|].
  by destruct (db_log drive).
Qed.

(** A keyed table with two rows and no ledger yet, nothing published: the
    run returns, and the file uploaded has the table as it was and an
    empty ledger. *)
Lemma bulk_main_keeps_keys_witness :
  ∃ out,
    bulk_load_price.main (serving [] (Date 2022 2 15)) 3
      (mkDb (Some (mkPrice true [row_P1; row_P2])) LogAbsent)
    = Some (Return tt,
            mkDb (Some (mkPrice true [row_P1; row_P2])) (LogTable []), out)
    ∧ keys_hold (mkDb (Some (mkPrice true [row_P1; row_P2])) (LogTable [])).
Proof.
  destruct (bulk_main_keeps_keys (serving [] (Date 2022 2 15)) 3
              (mkDb (Some (mkPrice true [row_P1; row_P2])) LogAbsent)
              eq_refl ltac:(vm_compute; lia)
              ltac:(split; [split; [reflexivity|]; simpl;
                            apply NoDup_cons; split;
                              [intros H; apply list_elem_of_singleton in H;
                               discriminate H
                              |apply NoDup_singleton]
                           |exact I]))
    as (o & db & out & Hrun & Hkeys & _).
  pose proof Hrun as Hval. vm_compute in Hval. injection Hval as Ho Hdb Hout.
  subst o db. exists out. split; [exact Hrun|exact Hkeys].
Defined.

(** X10 -- A backfill run that returned has entered [process_monthly_file]
    once for every calendar month from January 2022 through the month of
    the current date, in chronological order, and for nothing else (for no
    month at all when the current date is before 2022). *)
Theorem bulk_main_months_in_order (E : Env) (fuel : nat) (drive : database)
    (db : database) (out : list event) :
  valid_date (today E) = true →
  (Z.to_nat (month_index (today E)
             - month_index bulk_load_price.START_DATE + 1) < fuel)%nat →
  bulk_load_price.main E fuel drive = Some (Return tt, db, out) →
  months_processed out
  = (strftime_Y_m ∘ month_start)
    <$> seqZ (2022 * 12) (month_index (today E) - 2022 * 12 + 1).
Proof.
  intros HT Hfuel Hmain.
  destruct (bulk_main_run E fuel drive HT Hfuel) as (o & db' & out' & Hrun & Ho).
  rewrite Hmain in Hrun. simplify_eq.
  destruct Ho as (_ & Hmonths & _). exact Hmonths.
Qed.

Lemma bulk_main_months_in_order_witness :
  months_processed
    [Say "Setting up Drive service..."; Say "Downloading existing DuckDB file...";
     ProcessingMonth "2022-01" (pricecatcher_url (Date 2022 1 1));
     FileNotFound (pricecatcher_url (Date 2022 1 1));
     ProcessingMonth "2022-02" (pricecatcher_url (Date 2022 2 1));
     FileNotFound (pricecatcher_url (Date 2022 2 1));
     TotalRecords 0; Say "Uploading updated DuckDB file...";
     Say "Cleaning up..."; Say "Bulk load completed successfully!"]
  = ["2022-01"; "2022-02"].
Proof.
  exact (bulk_main_months_in_order (serving [] (Date 2022 2 15)) 3
           (mkDb None LogAbsent) _ _ eq_refl ltac:(vm_compute; lia)
           ltac:(vm_compute; reflexivity)).
Defined.

(** X11 -- A backfill run does not get past a month that has data.  If
    January 2022, the first month of every run, is published with at least
    one row and a snapshot in which an identity triple has one price, then
    (the current date being in 2022 or later and before December 9999) the
    run inserts the rows into its local copy, raises [BinderException] on
    the first upsert into the ledger, and uploads nothing: the database on
    Drive is what it was. *)
Theorem bulk_main_raises_on_data (E : Env) (fuel : nat) (drive : database)
    (s : Z) (batch : list Row) :
  valid_date (today E) = true →
  date_le bulk_load_price.START_DATE (today E) = true →
  ¬ (year (today E) = 9999 ∧ month (today E) = 12) →
  (Z.to_nat (month_index (today E)
             - month_index bulk_load_price.START_DATE + 1) < fuel)%nat →
  http_get E 0 (pricecatcher_url bulk_load_price.START_DATE)
    = Response s (Parquet batch) →
  status_ok s →
  batch ≠ [] →
  single_priced batch →
  ∃ out,
    bulk_load_price.main E fuel drive
    = Some (Raise BinderException, drive, out)
    ∧ AnErrorOccurred BinderException ∈ out.
Proof.
  intros HT Hle Hlast Hfuel Hget Hs Hne Hsp.
  unfold bulk_load_price.main, with_drive, bulk_load_price.main_try.
  rewrite bulk_preamble. cbv beta iota. cbn [conn temp_price clock stdout].
  pose proof HT as HT'. apply valid_date_spec in HT'.
  pose proof Hle as Hle'. apply date_le_spec in Hle'.
  assert (month_index bulk_load_price.START_DATE ≤ month_index (today E))
    as Hidx.
  { unfold month_index, bulk_load_price.START_DATE in *. simpl in *. lia. }
  unfold bulk_load_price.generate_month_urls.
  rewrite replace_day_1_month_start by done.
  rewrite generate_month_urls_loop_spec;
    [|done|unfold month_index; lia|exact Hfuel].
  rewrite seqZ_cons by lia. rewrite fmap_cons, app_nil_l.
  set (p := default {| primary_key := true; rows := [] |} (db_price drive)).
  erewrite bind_Raise; [eexists; split; [reflexivity|apply elem_of_with_last]|].
  cbn [bulk_load_price.month_loop].
  eapply bind_Raise.
  eapply (month_step_on_data E _ 0 _ s batch p).
  - reflexivity.
  - reflexivity.
  - simpl. by destruct (db_log drive).
  - exact Hget.
  - exact Hs.
  - exact Hne.
  - by apply insert_into_price_single_priced.
Qed.

Lemma bulk_main_raises_on_data_witness :
  ∃ out,
    bulk_load_price.main
      (serving [(pricecatcher_url (Date 2022 1 1), [row_P1; row_P1; row_P2])]
               (Date 2022 2 15))
      3 (mkDb None LogAbsent)
    = Some (Raise BinderException, mkDb None LogAbsent, out)
    ∧ AnErrorOccurred BinderException ∈ out.
Proof.
  refine (bulk_main_raises_on_data
            (serving [(pricecatcher_url (Date 2022 1 1), [row_P1; row_P1; row_P2])]
                     (Date 2022 2 15))
            3 (mkDb None LogAbsent) 200 [row_P1; row_P1; row_P2]
            eq_refl eq_refl _ ltac:(vm_compute; lia)
            ltac:(vm_compute; reflexivity) ltac:(left; lia)
            ltac:(discriminate) _).
  - intros [H _]. discriminate H.
  - intros r r' Hr Hr' Hid.
    repeat (apply elem_of_cons in Hr as [->|Hr]);
      repeat (apply elem_of_cons in Hr' as [->|Hr']);
      try reflexivity;
      try (by apply elem_of_nil in Hr); try (by apply elem_of_nil in Hr');
      exfalso; vm_compute in Hid; discriminate Hid.
Defined.

(** X13 -- One day of the incremental run, served with a single-priced
    snapshot.  The new rows of that day are inserted into [price]; then the
    read of [.row_count] raises [AttributeError], so that the step ends
    there: the temporary table is still on the connection, and the ledger
    is as it was. *)
Theorem day_step_raises_after_insert (E : Env) (w : world) (d : date) (s : Z)
    (batch : list Row) (p : price_table) :
  temp_price w = None →
  db_price (conn w) = Some p →
  http_get E (clock w) (pricecatcher_url d) = Response s (Parquet batch) →
  status_ok s →
  single_priced batch →
  ∃ w',
    inc_load_price.day_step E d w = (Raise AttributeError, w')
    ∧ temp_price w' = Some batch
    ∧ db_price (conn w')
      = Some {| primary_key := primary_key p;
                rows := rows p ++ new_records (Some d) batch (rows p) |}
    ∧ db_log (conn w') = db_log (conn w).
Proof.
  intros Htemp Hprice Hget Hs Hsp.
  eexists. split; [by eapply day_step_on_data|].
  split_and!; reflexivity.
Qed.

Lemma day_step_raises_after_insert_witness :
  ∃ w',
    inc_load_price.day_step
      (serving [(pricecatcher_url (Date 2022 1 1), [row_P1; row_P1; row_P2])]
               (Date 2022 1 3))
      (Date 2022 1 1)
      (fresh_world (mkDb (Some (mkPrice true [row_P1])) (LogTable [])))
    = (Raise AttributeError, w')
    ∧ temp_price w' = Some [row_P1; row_P1; row_P2]
    ∧ db_price (conn w') = Some (mkPrice true [row_P1; row_P2])
    ∧ db_log (conn w') = LogTable [].
Proof.
  destruct (day_step_raises_after_insert
              (serving [(pricecatcher_url (Date 2022 1 1), [row_P1; row_P1; row_P2])]
                       (Date 2022 1 3))
              (fresh_world (mkDb (Some (mkPrice true [row_P1])) (LogTable [])))
              (Date 2022 1 1) 200 [row_P1; row_P1; row_P2]
              (mkPrice true [row_P1])
              eq_refl eq_refl ltac:(vm_compute; reflexivity)
              ltac:(left; lia))
    as (w' & Hrun & Htemp & Hprice & Hlog).
  - intros r r' Hr Hr' Hid.
    repeat (apply elem_of_cons in Hr as [->|Hr]);
      repeat (apply elem_of_cons in Hr' as [->|Hr']);
      try reflexivity;
      try (by apply elem_of_nil in Hr); try (by apply elem_of_nil in Hr');
      exfalso; vm_compute in Hid; discriminate Hid.
  - exists w'. split_and!; [exact Hrun|exact Htemp|exact Hprice|exact Hlog].
Defined.

(* ===================================================================== *)
(** ** The dedup insert, in full                                          *)
(* ===================================================================== *)

(** X14 -- What the dedup insert takes.  Whenever the statement succeeds,
    there is a staging table, and [price] is what it was followed by rows
    that are pairwise different, are exactly the rows of the batch that
    pass the date filter and whose identity was not stored, and whose
    number is the reported row count; the ledger, the staging table, the
    clock and the output are untouched. *)
Theorem insert_new_records_takes_exactly (target : option date) (w w' : world)
    (n : Z) :
  insert_new_records target w = (Return n, w') →
  ∃ batch added,
    temp_price w = Some batch
    ∧ price_rows (conn w') = price_rows (conn w) ++ added
    ∧ NoDup added
    ∧ (∀ r, r ∈ added ↔
            r ∈ batch ∧ on_target target r
            ∧ identity r ∉ identity <$> price_rows (conn w))
    ∧ n = Z.of_nat (length added)
    ∧ db_log (conn w') = db_log (conn w)
    ∧ temp_price w' = temp_price w
    ∧ clock w' = clock w ∧ stdout w' = stdout w.
Proof.
  intros H. destruct w as [[pr l] t c out].
  unfold insert_new_records, price_rows in *. simpl in *.
  destruct t as [batch|]; [|done]. destruct pr as [p|]; [|done].
  destruct (insert_into_price (new_records target batch (rows p)) p)
    as [p'|e] eqn:Hins; [|done].
  apply insert_into_price_Return in Hins as [-> _]. simplify_eq. simpl.
  exists batch, (new_records target batch (rows p)).
  split_and!; try done.
  - apply NoDup_new_records.
  - intros r. apply elem_of_new_records.
Qed.

Lemma insert_new_records_takes_exactly_witness :
  ∃ batch added,
    Some [row_P1; row_P1; row_P2; row_Feb] = Some batch
    ∧ [row_P1; row_P2] = [row_P1] ++ added
    ∧ NoDup added.
Proof.
  destruct (insert_new_records_takes_exactly (Some (Date 2022 1 1))
              {| conn := mkDb (Some (mkPrice true [row_P1])) (LogTable []);
                 temp_price := Some [row_P1; row_P1; row_P2; row_Feb];
                 clock := 0; stdout := [] |}
              {| conn := mkDb (Some (mkPrice true [row_P1; row_P2])) (LogTable []);
                 temp_price := Some [row_P1; row_P1; row_P2; row_Feb];
                 clock := 0; stdout := [] |}
              1 ltac:(vm_compute; reflexivity))
    as (batch & added & Hb & Hrows & Hnd & _).
  exists batch, added. split_and!; [exact Hb|exact Hrows|exact Hnd].
Defined.

(** X15 -- On a [price] table without the primary key (one that
    [load_transactions.py] created; [CREATE TABLE IF NOT EXISTS] of the
    loaders leaves it so), two rows of the batch with one new identity and
    different values both are inserted: the dedup insert succeeds and
    leaves [price] with an identity held twice. *)
Theorem keyless_table_stores_conflicts (target : option date) (w : world)
    (batch : list Row) (p : price_table) (r r' : Row) :
  temp_price w = Some batch →
  db_price (conn w) = Some p →
  primary_key p = false →
  r ∈ batch → r' ∈ batch →
  identity r = identity r' → r ≠ r' →
  ¬ exists_in_price (rows p) r →
  on_target target r →
  create_price_if_not_exists true w = (Return tt, w)
  ∧ ∃ n w',
      insert_new_records target w = (Return n, w')
      ∧ r ∈ price_rows (conn w') ∧ r' ∈ price_rows (conn w')
      ∧ ¬ NoDup (identity <$> price_rows (conn w')).
Proof.
  intros Htemp Hprice Hpk Hr Hr' Hid Hne Hnew Hon.
  split.
  { unfold create_price_if_not_exists. by rewrite Hprice. }
  assert (r ∈ new_records target batch (rows p)) as Hin
    by (by apply elem_of_new_records).
  assert (r' ∈ new_records target batch (rows p)) as Hin'.
  { apply elem_of_new_records. split_and!; [done| |].
    - destruct target as [d|]; [|done]. simpl in *.
      unfold identity in Hid. congruence.
    - unfold exists_in_price in *. by rewrite <- Hid. }
  destruct w as [[pr l] t c out]. simpl in *. subst t pr.
  unfold insert_new_records, insert_into_price, price_rows. simpl.
  rewrite Hpk. eexists _, _. split; [reflexivity|]. simpl.
  split_and!.
  - apply elem_of_app. by right.
  - apply elem_of_app. by right.
  - intros Hnd. apply Hne.
    eapply (NoDup_fmap_elem_inj identity); [exact Hnd| | |exact Hid];
      apply elem_of_app; by right.
Qed.

Lemma keyless_table_stores_conflicts_witness :
  ∃ n w',
    insert_new_records None
      {| conn := mkDb (Some (mkPrice false [])) LogAbsent;
         temp_price := Some [row_P1; row_P1_130];
         clock := 0; stdout := [] |}
    = (Return n, w')
    ∧ row_P1 ∈ price_rows (conn w') ∧ row_P1_130 ∈ price_rows (conn w')
    ∧ ¬ NoDup (identity <$> price_rows (conn w')).
Proof.
  refine (proj2 (keyless_table_stores_conflicts None
            {| conn := mkDb (Some (mkPrice false [])) LogAbsent;
               temp_price := Some [row_P1; row_P1_130];
               clock := 0; stdout := [] |}
            [row_P1; row_P1_130] (mkPrice false []) row_P1 row_P1_130
            eq_refl eq_refl eq_refl _ _ eq_refl _ _ I)).
  - apply list_elem_of_here.
  - apply list_elem_of_further, list_elem_of_here.
  - discriminate.
  - apply not_elem_of_nil.
Defined.

(* ===================================================================== *)
(** ** Incremental: day after day, and the keys                           *)
(* ===================================================================== *)

Lemma day_loop_consecutive E fuel d T w o w' :
  valid_date d = true →
  inc_load_price.day_loop E fuel d T w = Some (o, w') →
  ∃ days,
    days_processed (stdout w') = days_processed (stdout w) ++ days
    ∧ toordinal <$> days = seqZ (toordinal d) (Z.of_nat (length days)).
Proof.
  revert d w. induction fuel as [|fuel IH]; intros d w Hv Hrun; [done|].
  simpl in Hrun. destruct (date_le d T).
  2: { simplify_eq. exists []. by rewrite app_nil_r. }
  destruct (inc_load_price.day_step E d w) as [[[]|e] w1] eqn:Hstep;
    apply day_step_effect in Hstep as (Htrace & _).
  - destruct (add_one_day d) as [next|e] eqn:Hnext.
    + destruct (add_one_day_next d next Hv Hnext) as (Hvn & _).
      destruct (IH next w1 Hvn Hrun) as (days & Htr & Hord).
      exists (d :: days). split.
      * rewrite Htr, Htrace, <- app_assoc. done.
      * rewrite fmap_cons, Hord, (add_one_day_toordinal d next Hv Hnext).
        rewrite (seqZ_cons (toordinal d)) by (simpl; lia).
        do 2 f_equal; simpl; lia.
    + simplify_eq. exists [d]. split; [done|]. reflexivity.
  - simplify_eq. exists [d]. split; [done|]. reflexivity.
Qed.

(** X16 -- The days of an incremental run are consecutive calendar days:
    on the scale of [date.toordinal], the days processed are the resume
    date, the day after it, the day after that, and so on without a gap or
    a repeat, for as long as the run went. *)
Theorem inc_main_consecutive_days (E : Env) (w w' : world)
    (last_date : inc_load_price.date_or_datetime) (fuel : nat)
    (o : outcome unit) :
  (inc_load_price.get_last_processed_date w).1 = Return last_date →
  valid_date (inc_load_price.to_date last_date) = true →
  inc_load_price.main_try E fuel w = Some (o, w') →
  ∃ days,
    days_processed (stdout w') = days_processed (stdout w) ++ days
    ∧ toordinal <$> days
      = seqZ (toordinal (inc_load_price.to_date last_date))
             (Z.of_nat (length days)).
Proof.
  intros Hlast Hv Hrun.
  rewrite get_last_processed_date_value in Hlast. injection Hlast as Hlast.
  destruct (inc_preamble w) as (w1 & Hpre & _ & _ & _ & Htr1).
  rewrite Hlast in Hpre.
  unfold inc_load_price.main_try in Hrun. rewrite Hpre in Hrun.
  destruct (inc_load_price.day_loop E fuel (inc_load_price.to_date last_date)
              (today E) w1) as [[[[]|e] w2]|] eqn:Hloop; [| |done].
  - destruct (day_loop_consecutive _ _ _ _ _ _ _ Hv Hloop) as (days & Htr & Hord).
    destruct (inc_epilogue w2) as (w3 & Hepi & Htr3 & _).
    rewrite Hepi in Hrun. simplify_eq.
    exists days. split; [|done]. by rewrite Htr3, Htr, Htr1.
  - destruct (day_loop_consecutive _ _ _ _ _ _ _ Hv Hloop) as (days & Htr & Hord).
    simplify_eq. exists days. split; [|done]. by rewrite Htr, Htr1.
Qed.

Lemma inc_main_consecutive_days_witness :
  ∃ w' days,
    inc_load_price.main_try (serving [] (Date 2022 3 1)) 5
      (fresh_world (mkDb None (LogTable [mkEntry (Date 2022 2 27) 0 "u" 1])))
    = Some (Return tt, w')
    ∧ days_processed (stdout w') = days
    ∧ toordinal <$> days = [738213; 738214; 738215].
Proof.
  assert (∃ w', inc_load_price.main_try (serving [] (Date 2022 3 1)) 5
                  (fresh_world (mkDb None
                     (LogTable [mkEntry (Date 2022 2 27) 0 "u" 1])))
                = Some (Return tt, w')) as [w' Hrun]
    by (eexists; vm_compute; reflexivity).
  destruct (inc_main_consecutive_days (serving [] (Date 2022 3 1))
              (fresh_world (mkDb None
                 (LogTable [mkEntry (Date 2022 2 27) 0 "u" 1])))
              w' (inc_load_price.a_date (Date 2022 2 27)) 5 (Return tt)
              eq_refl eq_refl Hrun) as (days & Htr & Hord).
  exists w', days. split; [exact Hrun|]. split; [exact Htr|].
  pose proof Hrun as Hval. vm_compute in Hval. injection Hval as Hw.
  change (days_processed (stdout w') = days) in Htr.
  rewrite <- Htr, <- Hw. vm_compute. reflexivity.
Defined.

(** The incremental [process_monthly_file] as a step of the tables. *)
Lemma inc_process_monthly_file_steps E d url w o w' :
  inc_load_price.process_monthly_file E d url w = (o, w') →
  db_log (conn w') = db_log (conn w)
  ∧ clock w' = S (clock w)
  ∧ ∃ added, price_step (db_price (conn w)) (db_price (conn w')) added.
Proof.
  intros H. destruct w as [[pr l] t c out].
  unfold inc_load_price.process_monthly_file, inc_load_price.download_parquet,
    try_except, requests_get, raise_for_status, create_temp_price,
    insert_new_records, drop_temp_price, row_count,
    bind, print, tick, ret, raise in H.
  simpl in *.
  assert (∀ o0 w0, (o0, w0) = (o, w') → o0 = o ∧ w0 = w') as Hinv
    by (by intros ?? [= -> ->]).
  destruct (http_get E c url) as [s content|]; simpl in H.
  2: { apply Hinv in H as [<- <-]. simpl. split_and!; [done..|].
       exists []. apply price_step_refl. }
  destruct ((400 <=? s) && (s <? 600)); simpl in H.
  { destruct (s =? 404); simpl in H; apply Hinv in H as [<- <-]; simpl.
    all: split_and!; [done..|]; exists []; apply price_step_refl. }
  destruct content as [batch|]; simpl in H.
  2: { apply Hinv in H as [<- <-]. simpl. split_and!; [done..|].
       exists []. apply price_step_refl. }
  destruct t as [temp|]; simpl in H.
  { apply Hinv in H as [<- <-]. simpl. split_and!; [done..|].
    exists []. apply price_step_refl. }
  destruct pr as [p|]; simpl in H.
  2: { apply Hinv in H as [<- <-]. simpl. split_and!; [done..|].
       exists []. apply price_step_refl. }
  destruct (insert_into_price (new_records (Some d) batch (rows p)) p)
    as [p'|e] eqn:Hins; simpl in H.
  - apply Hinv in H as [<- <-]. simpl. split_and!; [done..|].
    eexists. by apply insert_new_records_price_step.
  - apply Hinv in H as [<- <-]. simpl. split_and!; [done..|].
    exists []. apply price_step_refl.
Qed.

Lemma day_step_steps E d w o w' :
  inc_load_price.day_step E d w = (o, w') →
  db_log (conn w') = db_log (conn w)
  ∧ ∃ added, price_step (db_price (conn w)) (db_price (conn w')) added.
Proof.
  unfold inc_load_price.day_step, bind. intros H.
  destruct (inc_load_price.process_monthly_file E d (pricecatcher_url d) w)
    as [[n|e] w1] eqn:Hproc;
    apply inc_process_monthly_file_steps in Hproc
      as (Hlog & _ & added & Hps).
  - destruct (0 <? n).
    + destruct (recordProgress_effect d (pricecatcher_url d) n w1)
        as (e & Hrec & _).
      rewrite Hrec in H. simplify_eq. split; [done|]. by exists added.
    + unfold ret in H. simplify_eq. split; [done|]. by exists added.
  - simplify_eq. split; [done|]. by exists added.
Qed.

Lemma day_loop_steps E fuel d T w o w' :
  inc_load_price.day_loop E fuel d T w = Some (o, w') →
  db_log (conn w') = db_log (conn w)
  ∧ ∃ added, price_step (db_price (conn w)) (db_price (conn w')) added.
Proof.
  revert d w. induction fuel as [|fuel IH]; intros d w Hrun; [done|].
  simpl in Hrun. destruct (date_le d T).
  2: { simplify_eq. split; [done|]. exists []. apply price_step_refl. }
  destruct (inc_load_price.day_step E d w) as [[[]|e] w1] eqn:Hstep;
    apply day_step_steps in Hstep as (Hls & added1 & Hps).
  - destruct (add_one_day d) as [next|e].
    + apply IH in Hrun as (Hls2 & added2 & Hps2).
      split; [congruence|].
      exists (added1 ++ added2). by eapply price_step_trans.
    + simplify_eq. split; [done|]. by exists added1.
  - simplify_eq. split; [done|]. by exists added1.
Qed.

(** X17 -- An incremental run, for any server and any database file.  With
    enough fuel it ends.  When it raised, the database on Drive is what it
    was (rows inserted before the failure are not uploaded).  When it
    returned, the uploaded [price] holds the rows it held, in place,
    followed by rows whose identities it did not hold.  Either way, keys
    that held on the downloaded file hold on the file afterwards. *)
Theorem inc_main_keeps_keys (E : Env) (fuel : nat) (drive : database)
    (last_date : inc_load_price.date_or_datetime) :
  (inc_load_price.get_last_processed_date (fresh_world drive)).1
    = Return last_date →
  valid_date (inc_load_price.to_date last_date) = true →
  valid_date (today E) = true →
  (Z.to_nat (day_rank (today E)
             - day_rank (inc_load_price.to_date last_date) + 1) < fuel)%nat →
  keys_hold drive →
  ∃ o db out,
    inc_load_price.main E fuel drive = Some (o, db, out)
    ∧ keys_hold db
    ∧ match o with
      | Raise e => db = drive
      | Return _ =>
          ∃ added,
            price_rows db = price_rows drive ++ added
            ∧ ∀ r, r ∈ added → identity r ∉ identity <$> price_rows drive
      end.
Proof.
  intros Hlast HvD HvT Hfuel Hkeys.
  rewrite get_last_processed_date_value in Hlast. injection Hlast as Hlast.
  destruct (inc_preamble (fresh_world drive)) as (w1 & Hpre & Hconn1 & _).
  change (last_processed (db_log (conn (fresh_world drive))) = last_date)
    in Hlast.
  rewrite Hlast in Hpre.
  destruct (day_loop_resumed E fuel (inc_load_price.to_date last_date)
              (today E) w1 HvD HvT Hfuel)
    as (o & w2 & days & added0 & Hloop & _).
  pose proof (day_loop_steps _ _ _ _ _ _ _ Hloop) as (Hls & added & Hps).
  rewrite Hconn1 in Hls, Hps.
  change (conn (fresh_world drive)) with drive in Hls, Hps.
  unfold inc_load_price.main, with_drive, inc_load_price.main_try.
  change {| conn := drive; temp_price := None; clock := 0; stdout := [] |}
    with (fresh_world drive).
  rewrite Hpre, Hloop.
  destruct o as [[]|e].
  - destruct (inc_epilogue w2) as (w3 & Hepi & _ & Hconn3).
    rewrite Hepi. eexists _, _, _. split; [reflexivity|]. rewrite Hconn3.
    apply prepared_keys_hold in Hkeys. destruct Hkeys as [Hp Hl].
    split; [split|].
    + by apply (price_step_key _ _ _ Hps).
    + by rewrite Hls.
    + exists added. apply price_step_rows in Hps as [Hrows Hfresh].
      rewrite prepared_price_rows in Hrows, Hfresh. done.
  - eexists _, _, _. split; [reflexivity|]. done.
Qed.

Lemma inc_main_keeps_keys_witness :
  ∃ o db out,
    inc_load_price.main
      (serving [(pricecatcher_url (Date 2022 1 1), [row_P1; row_P1_130])]
               (Date 2022 1 3))
      5 (mkDb (Some (mkPrice true [row_P2])) LogAbsent)
    = Some (o, db, out)
    ∧ keys_hold db.
Proof.
  destruct (inc_main_keeps_keys
              (serving [(pricecatcher_url (Date 2022 1 1), [row_P1; row_P1_130])]
                       (Date 2022 1 3))
              5 (mkDb (Some (mkPrice true [row_P2])) LogAbsent)
              (inc_load_price.a_datetime (Date 2022 1 1))
              eq_refl eq_refl eq_refl ltac:(vm_compute; lia))
    as (o & db & out & Hrun & Hkeys & _).
  - split; [|done]. split; [done|]. simpl. apply NoDup_singleton.
  - exists o, db, out. split; [exact Hrun|exact Hkeys].
Defined.

(* ===================================================================== *)
(** ** Failing fetches and files                                          *)
(* ===================================================================== *)

Lemma download_parquet_error E url w s c :
  http_get E (clock w) url = Response s c → 400 ≤ s < 600 → s ≠ 404 →
  bulk_load_price.download_parquet E url w = (Raise (HTTPError s), advance w).
Proof.
  intros Hget Hs Hne.
  unfold bulk_load_price.download_parquet, try_except, requests_get,
    raise_for_status, bind, tick. simpl. rewrite Hget. simpl.
  assert ((400 <=? s) && (s <? 600) = true) as ->
    by (apply andb_true_iff; lia).
  simpl. destruct (Z.eqb_spec s 404); [done|reflexivity].
Qed.

(** X18 -- Only a 404 is tolerated.  When the fetch of a period answers
    another status from 400 to 599, both loaders stop there: the step raises
    that [HTTPError] with the database untouched, the month loop does not
    go on to the months that remain, and the day loop does not go on to the
    next day. *)
Theorem http_error_halts (E : Env) (w : world)
    (month_data : bulk_load_price.month_data)
    (rest : list bulk_load_price.month_data) (total_records : Z)
    (date current_date : date) (fuel : nat) (s s' : Z) (c c' : file_content) :
  http_get E (clock w) (bulk_load_price.url month_data) = Response s c →
  400 ≤ s < 600 → s ≠ 404 →
  http_get E (clock w) (pricecatcher_url date) = Response s' c' →
  400 ≤ s' < 600 → s' ≠ 404 →
  date_le date current_date = true →
  (∃ w', bulk_load_price.month_loop E (month_data :: rest) total_records w
         = (Raise (HTTPError s), w')
         ∧ conn w' = conn w)
  ∧ (∃ w', inc_load_price.day_loop E (S fuel) date current_date w
           = Some (Raise (HTTPError s'), w')
           ∧ conn w' = conn w).
Proof.
  intros Hget Hs Hne Hget' Hs' Hne' Hle. split.
  - eexists. split.
    + simpl. eapply bind_Raise.
      unfold bulk_load_price.month_step. eapply bind_Raise.
      unfold bulk_load_price.process_monthly_file.
      erewrite bind_Return by reflexivity.
      eapply bind_Raise. by eapply download_parquet_error.
    + reflexivity.
  - eexists. split.
    + simpl. rewrite Hle.
      assert (inc_load_price.day_step E date w
              = (Raise (HTTPError s'),
                 advance (with_output
                   [ProcessingDay date (pricecatcher_url date)] w))) as ->;
        [|reflexivity].
      unfold inc_load_price.day_step. eapply bind_Raise.
      unfold inc_load_price.process_monthly_file.
      erewrite bind_Return by reflexivity.
      eapply bind_Raise. rewrite inc_download_parquet_eq.
      by eapply download_parquet_error.
    + reflexivity.
Qed.

Lemma http_error_halts_witness :
  ∃ w', bulk_load_price.month_loop
          (mkEnv (λ _ _, Response 503 NotParquet) (λ n, Z.of_nat n) (Date 2022 2 15))
          [month_entry (Date 2022 1 1); month_entry (Date 2022 2 1)] 0
          (fresh_world (mkDb (Some (mkPrice true [])) (LogTable [])))
        = (Raise (HTTPError 503), w')
        ∧ conn w' = mkDb (Some (mkPrice true [])) (LogTable []).
Proof.
  exact (proj1 (http_error_halts
           (mkEnv (λ _ _, Response 503 NotParquet) (λ n, Z.of_nat n) (Date 2022 2 15))
           (fresh_world (mkDb (Some (mkPrice true [])) (LogTable [])))
           (month_entry (Date 2022 1 1)) [month_entry (Date 2022 2 1)] 0
           (Date 2022 1 1) (Date 2022 2 15) 0 503 503 NotParquet NotParquet
           eq_refl ltac:(lia) ltac:(lia) eq_refl ltac:(lia) ltac:(lia) eq_refl)).
Defined.

(** X19 -- A snapshot that does not decode.  When the file that was served
    is not a parquet file, [process_monthly_file] of both loaders raises at
    the staging statement: no staging table is created and the database is
    untouched. *)
Theorem undecodable_snapshot_aborts (E : Env) (w : world)
    (year_month url : string) (date : date) (s : Z) :
  http_get E (clock w) url = Response s NotParquet →
  status_ok s →
  (∃ w', bulk_load_price.process_monthly_file E year_month url w
         = (Raise InvalidInputException, w')
         ∧ conn w' = conn w ∧ temp_price w' = temp_price w)
  ∧ (∃ w', inc_load_price.process_monthly_file E date url w
           = (Raise InvalidInputException, w')
           ∧ conn w' = conn w ∧ temp_price w' = temp_price w).
Proof.
  intros Hget Hs. split.
  - eexists. split.
    + unfold bulk_load_price.process_monthly_file.
      erewrite bind_Return by reflexivity.
      erewrite bind_Return
        by (eapply download_parquet_found; [exact Hget|exact Hs]).
      cbv beta iota. eapply bind_Raise. reflexivity.
    + split; reflexivity.
  - eexists. split.
    + unfold inc_load_price.process_monthly_file.
      erewrite bind_Return by reflexivity.
      rewrite inc_download_parquet_eq.
      erewrite bind_Return
        by (eapply download_parquet_found; [exact Hget|exact Hs]).
      cbv beta iota. eapply bind_Raise. reflexivity.
    + split; reflexivity.
Qed.

Lemma undecodable_snapshot_aborts_witness :
  ∃ w', bulk_load_price.process_monthly_file
          (mkEnv (λ _ _, Response 200 NotParquet) (λ n, Z.of_nat n) (Date 2022 2 15))
          "2022-01" (pricecatcher_url (Date 2022 1 1))
          (fresh_world (mkDb (Some (mkPrice true [])) (LogTable [])))
        = (Raise InvalidInputException, w')
        ∧ conn w' = mkDb (Some (mkPrice true [])) (LogTable [])
        ∧ temp_price w' = None.
Proof.
  exact (proj1 (undecodable_snapshot_aborts
           (mkEnv (λ _ _, Response 200 NotParquet) (λ n, Z.of_nat n) (Date 2022 2 15))
           (fresh_world (mkDb (Some (mkPrice true [])) (LogTable [])))
           "2022-01" (pricecatcher_url (Date 2022 1 1)) (Date 2022 1 1) 200
           eq_refl ltac:(left; lia))).
Defined.

(* ===================================================================== *)
(** ** The two loaders side by side                                       *)
(* ===================================================================== *)

Lemma remove_dups_filter {A} `{EqDecision A} (P : A → Prop)
    `{!∀ x, Decision (P x)} (l : list A) :
  remove_dups (filter P l) = filter P (remove_dups l).
Proof.
  induction l as [|a l IH]; [done|].
  rewrite filter_cons. simpl. destruct (decide (P a)) as [HP|HP].
  - simpl. destruct (decide_rel elem_of a l) as [Hin|Hin],
      (decide_rel elem_of a (filter P l)) as [Hf|Hf].
    + exact IH.
    + exfalso. apply Hf. by apply list_elem_of_filter.
    + exfalso. by apply list_elem_of_filter in Hf as [_ ?].
    + rewrite filter_cons, decide_True by done. by rewrite IH.
  - destruct (decide_rel elem_of a l) as [Hin|Hin]; [done|].
    rewrite filter_cons, decide_False by done. done.
Qed.

(** X20 -- The dedup insert of the incremental loader for a day takes
    exactly the rows of that day that the dedup insert of the bulk loader
    would take from the same batch: the same rows, each as often, in
    whatever order the engine hands them out; and rows of other days that
    were stored in between make no difference to what it takes. *)
Theorem incremental_rows_of_day (d : date)
    (batch stored others : list Row) :
  (∀ r, r ∈ others → row_date r ≠ d) →
  new_records (Some d) batch stored
  ≡ₚ filter (λ r, row_date r = d) (new_records None batch stored)
  ∧ new_records (Some d) batch (stored ++ others)
    ≡ₚ new_records (Some d) batch stored.
Proof.
  intros Hothers. split.
  - assert (new_records (Some d) batch stored
            = filter (λ r, row_date r = d) (new_records None batch stored))
      as ->; [|done].
    unfold new_records. rewrite <- remove_dups_filter. f_equal.
    rewrite list_filter_filter. apply list_filter_iff.
    intros r. simpl.
    split; [intros [? ?]; by split_and!|intros (? & _ & ?); by split].
  - assert (new_records (Some d) batch (stored ++ others)
            = new_records (Some d) batch stored) as ->; [|done].
    unfold new_records. f_equal. apply list_filter_iff.
    intros r. simpl. unfold exists_in_price.
    rewrite fmap_app, elem_of_app. split.
    { intros [Hd Hn]. split; [done|]. intros HA. apply Hn. by left. }
    intros [Hd Hnew]. split; [done|]. intros [Hin|Hin]; [done|].
    apply list_elem_of_fmap in Hin as (r' & Hid & Hr').
    apply (Hothers r' Hr'). unfold identity in Hid. congruence.
Qed.

Lemma incremental_rows_of_day_witness :
  new_records (Some (Date 2022 1 1)) [row_P1; row_Feb; row_P2] [row_P1]
  ≡ₚ filter (λ r, row_date r = Date 2022 1 1)
       (new_records None [row_P1; row_Feb; row_P2] [row_P1])
  ∧ new_records (Some (Date 2022 1 1)) [row_P1; row_Feb; row_P2]
      ([row_P1] ++ [row_Feb])
    ≡ₚ new_records (Some (Date 2022 1 1)) [row_P1; row_Feb; row_P2] [row_P1].
Proof.
  refine (incremental_rows_of_day (Date 2022 1 1)
            [row_P1; row_Feb; row_P2] [row_P1] [row_Feb] _).
  intros r Hr. apply list_elem_of_singleton in Hr. subst r. discriminate.
Defined.

(* ===================================================================== *)
(** ** The dates of a month's file                                        *)
(* ===================================================================== *)

#[local] Instance date_le_rel_trans : Transitive date_le_rel.
Proof. intros a b c. unfold date_le_rel. apply date_le_trans. Qed.

#[local] Instance date_le_rel_total : Total date_le_rel.
Proof. intros a b. unfold date_le_rel. apply date_le_total. Qed.

Lemma strictly_sorted_of_NoDup (l : list date) :
  StronglySorted date_le_rel l → NoDup l →
  StronglySorted (λ a b, date_lt a b = true) l.
Proof.
  induction 1 as [|a l Hs IH Hall]; intros Hnd; [constructor|].
  apply NoDup_cons in Hnd as [Ha Hnd]. constructor; [by apply IH|].
  rewrite Forall_forall in Hall. apply Forall_forall. intros x Hx.
  destruct (date_le_lt_or_eq a x (Hall x Hx)) as [->|Hlt]; [done|exact Hlt].
Qed.

Lemma distinct_dates_ascending batch :
  StronglySorted (λ a b, date_lt a b = true) (distinct_dates batch).
Proof.
  apply strictly_sorted_of_NoDup.
  - unfold distinct_dates. apply (StronglySorted_merge_sort date_le_rel).
  - unfold distinct_dates. rewrite (merge_sort_Permutation date_le_rel _).
    apply NoDup_remove_dups.
Qed.

(** X22 -- The dates that the bulk [process_monthly_file] hands back for the
    ledger come in strictly ascending order, none of them twice, whatever
    the order and the repetitions of the rows in the file. *)
Theorem bulk_result_dates_ascending (E : Env) (year_month url : string)
    (w w' : world) (r : bulk_load_price.monthly_result) :
  bulk_load_price.process_monthly_file E year_month url w
    = (Return (Some r), w') →
  StronglySorted (λ a b, date_lt a b = true) (bulk_load_price.result_dates r)
  ∧ NoDup (bulk_load_price.result_dates r).
Proof.
  intros Hproc.
  apply bulk_process_monthly_file_effect in Hproc
    as (_ & _ & added & _ & _ & _ & _ & batch & -> & _).
  split; [apply distinct_dates_ascending|].
  unfold distinct_dates. rewrite (merge_sort_Permutation date_le_rel _).
  apply NoDup_remove_dups.
Qed.

Lemma bulk_result_dates_ascending_witness :
  StronglySorted (λ a b, date_lt a b = true)
    [Date 2022 1 1; Date 2022 2 1]
  ∧ NoDup [Date 2022 1 1; Date 2022 2 1].
Proof.
  exact (bulk_result_dates_ascending
           (serving [(pricecatcher_url (Date 2022 1 1),
                      [row_Feb; row_P1; row_Feb; row_P2])] (Date 2022 2 15))
           "2022-01" (pricecatcher_url (Date 2022 1 1))
           (fresh_world (mkDb (Some (mkPrice true [])) (LogTable [])))
           _ (bulk_load_price.mkResult (-1) [Date 2022 1 1; Date 2022 2 1])
           ltac:(vm_compute; reflexivity)).
Defined.
